(** * vosk_ex: the NIF layer between the Erlang runtime and the Vosk engine

    A shallow embedding of [c_src/vosk_nif.c].  The file follows the C source
    top to bottom: the C-level data (sizes, [int], [char] arrays, C strings),
    the fragment of [erl_nif.h] the source uses (terms, binaries, resource
    objects), the engine interface of [vosk_api.h], the two destructors, the
    twelve NIF entry points, [load] and the export table [nif_funcs].

    Undefined behaviour of the C program (an out-of-bounds [memcpy] or array
    store, reading [argv] past [argc], reading an indeterminate or
    unterminated string, dereferencing a resource through the wrong struct)
    is an explicit outcome, so that "this call is safe" is a statement that
    can fail. *)

From Stdlib Require Import ZArith List String Strings.Byte Bool Lia.
From Stdlib Require Import SpecFloat.
From stdpp Require Import base option list.

Open Scope Z_scope.

(** ** Outcomes of C code *)

Inductive outcome (A : Type) : Type :=
| Done (a : A)
| Undefined.
Arguments Done {A} a.
Arguments Undefined {A}.

#[global] Instance outcome_ret : MRet outcome := fun A a => Done a.
#[global] Instance outcome_bind : MBind outcome := fun A B f m =>
  match m with
  | Done a => f a
  | Undefined => Undefined
  end.

Definition is_done {A} (m : outcome A) : bool :=
  match m with
  | Done _ => true
  | Undefined => false
  end.

(** ** C integers, pointers and character arrays *)

Definition INT_MIN : Z := - 2 ^ 31.
Definition INT_MAX : Z := 2 ^ 31 - 1.

Definition in_int_range (z : Z) : bool := (INT_MIN <=? z) && (z <=? INT_MAX).

(** Conversion of an unsigned [size_t] value to [int], as the implicit
    conversion at a call site does it: reduction modulo 2^32 into the signed
    range. *)
Definition int_of_size_t (n : nat) : Z :=
  (Z.of_nat n + 2 ^ 31) mod 2 ^ 32 - 2 ^ 31.

(** [a >= b] on sizes is decided as [b <= a]. *)
#[global] Instance nat_ge_dec : RelDecision ge := fun a b => decide (b <= a)%nat.

(** Native pointers ([VoskModel*], [VoskRecognizer*]) are addresses. *)
Definition ptr : Type := Z.
Definition NULL : ptr := 0.

(** One [char] of an automatic array: [None] is an indeterminate value. *)
Definition cell : Type := option byte.

(** [char buf[n];] not initialised. *)
Definition char_array (n : nat) : list cell := replicate n None.

(** [sizeof(buf)] for a [char] array. *)
Definition sizeof (buf : list cell) : nat := length buf.

(** [memcpy(dst, src, n)]: defined only when both objects hold [n] bytes. *)
Definition memcpy (dst : list cell) (src : list byte) (n : nat)
  : outcome (list cell) :=
  if decide (n <= length dst /\ n <= length src)%nat
  then Done ((Some <$> take n src) ++ drop n dst)
  else Undefined.

(** [buf[i] = c]: defined only inside the array. *)
Definition store (buf : list cell) (i : nat) (c : byte) : outcome (list cell) :=
  if decide (i < length buf)%nat
  then Done (<[i := Some c]> buf)
  else Undefined.

(** What a callee that receives [const char*] reads: the bytes before the
    first zero byte.  Running off the array or meeting an indeterminate
    byte first is undefined. *)
Fixpoint c_str (buf : list cell) : outcome (list byte) :=
  match buf with
  | [] => Undefined
  | None :: _ => Undefined
  | Some c :: rest =>
      if Byte.eqb c x00 then Done []
      else s ← c_str rest; Done (c :: s)
  end.

(** The part of a byte sequence before its first zero byte. *)
Fixpoint until_nul (s : list byte) : list byte :=
  match s with
  | [] => []
  | c :: rest => if Byte.eqb c x00 then [] else c :: until_nul rest
  end.

(** ** Floating point

    An Erlang float is an IEEE binary64 value, the engine takes a binary32
    value; both are [spec_float]s, told apart by precision and exponent
    range. *)

Definition double : Type := spec_float.
Definition float : Type := spec_float.

Definition is_double (d : double) : bool := valid_binary 53 1024 d.
Definition is_float (f : float) : bool := valid_binary 24 128 f.

(** The cast [(float)sample_rate]: round to nearest, ties to even, into
    binary32; overflow gives an infinity, underflow a subnormal or zero. *)
Definition float_of_double (d : double) : float :=
  match d with
  | S754_finite s m e => binary_round 24 128 s m e
  | _ => d
  end.

(** ** Erlang terms as seen through erl_nif.h *)

Inductive ErlNifCharEncoding := ERL_NIF_LATIN1 | ERL_NIF_UTF8.

Unset Elimination Schemes.
Inductive ERL_NIF_TERM : Type :=
| Integer (z : Z)
| Float (d : double)
| Atom (a : string)
| Binary (b : list byte)
| Resource (obj : nat)
| Tuple (elems : list ERL_NIF_TERM)
| List (elems : list ERL_NIF_TERM)
| CharList (enc : ErlNifCharEncoding) (s : list byte).
(* [CharList enc s] is the list of characters that the runtime builds from
   the C string [s] read under encoding [enc]. *)
Set Elimination Schemes.

(** What a NIF hands back: a term, or the [badarg] exception raised through
    [enif_make_badarg]. *)
Inductive nif_result : Type :=
| Value (t : ERL_NIF_TERM)
| Badarg.

Record ErlNifBinary := { size : nat; data : list byte }.

Definition enif_make_atom (name : string) : ERL_NIF_TERM := Atom name.
Definition enif_make_int (i : Z) : ERL_NIF_TERM := Integer i.
Definition enif_make_tuple2 (a b : ERL_NIF_TERM) : ERL_NIF_TERM := Tuple [a; b].
Definition enif_make_string (s : list byte) (enc : ErlNifCharEncoding)
  : ERL_NIF_TERM := CharList enc s.
Definition enif_make_badarg : nif_result := Badarg.

(** [enif_get_int]: succeeds on an integer that fits a C [int]. *)
Definition enif_get_int (t : ERL_NIF_TERM) : option Z :=
  match t with
  | Integer z => if in_int_range z then Some z else None
  | _ => None
  end.

(** [enif_get_double]: succeeds on a float only; an integer is not
    converted. *)
Definition enif_get_double (t : ERL_NIF_TERM) : option double :=
  match t with
  | Float d => Some d
  | _ => None
  end.

Definition enif_inspect_binary (t : ERL_NIF_TERM) : option ErlNifBinary :=
  match t with
  | Binary b => Some {| size := length b; data := b |}
  | _ => None
  end.

(** [argv[i]] with [argc = length argv]. *)
Definition arg (argv : list ERL_NIF_TERM) (i : nat) : outcome ERL_NIF_TERM :=
  match argv !! i with
  | Some t => Done t
  | None => Undefined
  end.

(** ** Resource objects *)

(* Resource types *)
Inductive ErlNifResourceType := VoskModel | VoskRecognizer.

#[global] Instance ErlNifResourceType_eq_dec : EqDecision ErlNifResourceType.
Proof. solve_decision. Defined.

(** The two globals are written once by [load], before any NIF can run;
    they are modelled by the types [load] binds them to. *)
Definition MODEL_TYPE : ErlNifResourceType := VoskModel.
Definition RECOGNIZER_TYPE : ErlNifResourceType := VoskRecognizer.

(* Resource structures *)
Record ModelResource := { model : ptr }.
Record RecognizerResource := { recognizer : ptr }.

Inductive resource_data :=
| ModelData (m : ModelResource)
| RecognizerData (r : RecognizerResource).

(** A resource object of the runtime: the struct it holds and the number of
    references to it. *)
Record resource := { payload : resource_data; refc : nat }.

Definition type_of (r : resource) : ErlNifResourceType :=
  match payload r with
  | ModelData _ => VoskModel
  | RecognizerData _ => VoskRecognizer
  end.

(** ** The engine: vosk_api.h *)

Class VoskApi (E : Type) := {
  vosk_set_log_level : E -> Z -> E;
  vosk_model_new : E -> list byte -> E * ptr;
  vosk_model_free : E -> ptr -> E;
  vosk_model_find_word : E -> ptr -> list byte -> E * Z;
  vosk_recognizer_new : E -> ptr -> float -> E * ptr;
  vosk_recognizer_free : E -> ptr -> E;
  vosk_recognizer_set_max_alternatives : E -> ptr -> Z -> E;
  vosk_recognizer_set_words : E -> ptr -> Z -> E;
  vosk_recognizer_set_partial_words : E -> ptr -> Z -> E;
  vosk_recognizer_accept_waveform : E -> ptr -> list byte -> Z -> E * Z;
  vosk_recognizer_result : E -> ptr -> E * list byte;
  vosk_recognizer_partial_result : E -> ptr -> E * list byte;
  vosk_recognizer_final_result : E -> ptr -> E * list byte;
  vosk_recognizer_reset : E -> ptr -> E
}.

(** A call into the engine, with its arguments as C passes them: a string
    argument is the array behind the pointer. *)
Inductive native_call : Type :=
| Call_set_log_level (log_level : Z)
| Call_model_new (model_path : list cell)
| Call_model_free (m : ptr)
| Call_model_find_word (m : ptr) (word : list cell)
| Call_recognizer_new (m : ptr) (sample_rate : float)
| Call_recognizer_free (r : ptr)
| Call_recognizer_set_max_alternatives (r : ptr) (max_alternatives : Z)
| Call_recognizer_set_words (r : ptr) (words : Z)
| Call_recognizer_set_partial_words (r : ptr) (partial_words : Z)
| Call_recognizer_accept_waveform (r : ptr) (bytes : list byte) (len : Z)
| Call_recognizer_result (r : ptr)
| Call_recognizer_partial_result (r : ptr)
| Call_recognizer_final_result (r : ptr)
| Call_recognizer_reset (r : ptr).

Definition is_free_of (p : ptr) (c : native_call) : bool :=
  match c with
  | Call_model_free q => Z.eqb p q
  | Call_recognizer_free q => Z.eqb p q
  | _ => false
  end.

(** How many times the engine was asked to free [p]. *)
Definition frees_of (p : ptr) (cs : list native_call) : nat :=
  length (filter (fun c => is_free_of p c = true) cs).

(** ** The state the NIFs run in *)

Section Nif.
Context {E : Type} {api : VoskApi E}.

(** [heap]: the runtime's resource objects, a resource term [Resource i]
    refers to the [i]-th; [engine]: the state of the native library;
    [calls]: every call made into the engine so far, oldest first. *)
Record world := {
  heap : list resource;
  engine : E;
  calls : list native_call
}.

Definition enter (st : world) (e : E) (c : native_call) : world :=
  {| heap := heap st; engine := e; calls := calls st ++ [c] |}.

Definition with_heap (st : world) (h : list resource) : world :=
  {| heap := h; engine := engine st; calls := calls st |}.

(** *** Calls into the engine *)

Definition call_set_log_level (st : world) (log_level : Z) : world :=
  enter st (vosk_set_log_level (engine st) log_level)
    (Call_set_log_level log_level).

Definition call_model_new (st : world) (model_path : list cell)
  : outcome (world * ptr) :=
  s ← c_str model_path;
  let '(e, m) := vosk_model_new (engine st) s in
  Done (enter st e (Call_model_new model_path), m).

Definition call_model_free (st : world) (m : ptr) : world :=
  enter st (vosk_model_free (engine st) m) (Call_model_free m).

Definition call_model_find_word (st : world) (m : ptr) (word : list cell)
  : outcome (world * Z) :=
  s ← c_str word;
  let '(e, r) := vosk_model_find_word (engine st) m s in
  Done (enter st e (Call_model_find_word m word), r).

Definition call_recognizer_new (st : world) (m : ptr) (sample_rate : float)
  : world * ptr :=
  let '(e, r) := vosk_recognizer_new (engine st) m sample_rate in
  (enter st e (Call_recognizer_new m sample_rate), r).

Definition call_recognizer_free (st : world) (r : ptr) : world :=
  enter st (vosk_recognizer_free (engine st) r) (Call_recognizer_free r).

Definition call_recognizer_set_max_alternatives (st : world) (r : ptr)
  (max_alternatives : Z) : world :=
  enter st (vosk_recognizer_set_max_alternatives (engine st) r max_alternatives)
    (Call_recognizer_set_max_alternatives r max_alternatives).

Definition call_recognizer_set_words (st : world) (r : ptr) (words : Z)
  : world :=
  enter st (vosk_recognizer_set_words (engine st) r words)
    (Call_recognizer_set_words r words).

Definition call_recognizer_set_partial_words (st : world) (r : ptr)
  (partial_words : Z) : world :=
  enter st (vosk_recognizer_set_partial_words (engine st) r partial_words)
    (Call_recognizer_set_partial_words r partial_words).

Definition call_recognizer_accept_waveform (st : world) (r : ptr)
  (bytes : list byte) (len : Z) : world * Z :=
  let '(e, code) := vosk_recognizer_accept_waveform (engine st) r bytes len in
  (enter st e (Call_recognizer_accept_waveform r bytes len), code).

Definition call_recognizer_result (st : world) (r : ptr)
  : world * list byte :=
  let '(e, s) := vosk_recognizer_result (engine st) r in
  (enter st e (Call_recognizer_result r), s).

Definition call_recognizer_partial_result (st : world) (r : ptr)
  : world * list byte :=
  let '(e, s) := vosk_recognizer_partial_result (engine st) r in
  (enter st e (Call_recognizer_partial_result r), s).

Definition call_recognizer_final_result (st : world) (r : ptr)
  : world * list byte :=
  let '(e, s) := vosk_recognizer_final_result (engine st) r in
  (enter st e (Call_recognizer_final_result r), s).

Definition call_recognizer_reset (st : world) (r : ptr) : world :=
  enter st (vosk_recognizer_reset (engine st) r) (Call_recognizer_reset r).

(** *** Resource objects of the runtime *)

(** [enif_alloc_resource(type, size)]: a new object, one reference held by
    the caller.  Its memory is given as zeroed; the source assigns the one
    field before anything reads it. *)
Definition enif_alloc_resource (st : world) (type : ErlNifResourceType)
  : world * nat :=
  let fresh_data :=
    match type with
    | VoskModel => ModelData {| model := NULL |}
    | VoskRecognizer => RecognizerData {| recognizer := NULL |}
    end in
  (with_heap st (heap st ++ [{| payload := fresh_data; refc := 1 |}]),
   length (heap st)).

(** [enif_make_resource]: the term refers to the object and holds a
    reference of its own. *)
Definition enif_make_resource (st : world) (obj : nat)
  : world * ERL_NIF_TERM :=
  (with_heap st
     (alter (fun r => {| payload := payload r; refc := S (refc r) |}) obj
        (heap st)),
   Resource obj).

(** [enif_release_resource]: drops the reference the C code holds. *)
Definition enif_release_resource (st : world) (obj : nat) : world :=
  with_heap st
    (alter (fun r => {| payload := payload r; refc := pred (refc r) |}) obj
       (heap st)).

(** [enif_get_resource(env, term, type, &objp)]: succeeds when the term
    refers to an object of exactly this type. *)
Definition enif_get_resource (st : world) (t : ERL_NIF_TERM)
  (type : ErlNifResourceType) : option nat :=
  match t with
  | Resource obj =>
      match heap st !! obj with
      | Some r => if decide (type_of r = type) then Some obj else None
      | None => None
      end
  | _ => None
  end.

(** [((ModelResource* )obj)->model] *)
Definition get_model (st : world) (obj : nat) : outcome ptr :=
  match heap st !! obj with
  | Some {| payload := ModelData m |} => Done (model m)
  | _ => Undefined
  end.

(** [((ModelResource* )obj)->model = m] *)
Definition set_model (st : world) (obj : nat) (m : ptr) : outcome world :=
  match heap st !! obj with
  | Some {| payload := ModelData _; refc := n |} =>
      Done (with_heap st
              (<[obj := {| payload := ModelData {| model := m |}; refc := n |}]>
                 (heap st)))
  | _ => Undefined
  end.

(** [((RecognizerResource* )obj)->recognizer] *)
Definition get_recognizer (st : world) (obj : nat) : outcome ptr :=
  match heap st !! obj with
  | Some {| payload := RecognizerData r |} => Done (recognizer r)
  | _ => Undefined
  end.

(** [((RecognizerResource* )obj)->recognizer = r] *)
Definition set_recognizer (st : world) (obj : nat) (r : ptr)
  : outcome world :=
  match heap st !! obj with
  | Some {| payload := RecognizerData _; refc := n |} =>
      Done (with_heap st
              (<[obj := {| payload := RecognizerData {| recognizer := r |};
                           refc := n |}]> (heap st)))
  | _ => Undefined
  end.

(** ** The source, function by function *)

(* Resource destructors *)
Definition model_destructor (st : world) (obj : nat) : outcome world :=
  m ← get_model st obj;
  if decide (m <> NULL) then
    let st := call_model_free st m in
    set_model st obj NULL
  else Done st.

Definition recognizer_destructor (st : world) (obj : nat) : outcome world :=
  r ← get_recognizer st obj;
  if decide (r <> NULL) then
    let st := call_recognizer_free st r in
    set_recognizer st obj NULL
  else Done st.

(* Helper function to make error tuples *)
Definition make_error (reason : string) : ERL_NIF_TERM :=
  enif_make_tuple2 (enif_make_atom "error") (enif_make_atom reason).

Definition nif : Type :=
  world -> list ERL_NIF_TERM -> outcome (world * nif_result).

(* Set log level *)
Definition set_log_level_nif : nif := fun st argv =>
  a0 ← arg argv 0;
  match enif_get_int a0 with
  | None => Done (st, enif_make_badarg)
  | Some level =>
      let st := call_set_log_level st level in
      Done (st, Value (enif_make_atom "ok"))
  end.

(* Load model *)
Definition load_model_nif : nif := fun st argv =>
  a0 ← arg argv 0;
  match enif_inspect_binary a0 with
  | None => Done (st, enif_make_badarg)
  | Some path_bin =>
      (* Ensure null termination *)
      let path := char_array 1024 in
      if decide (size path_bin >= sizeof path)%nat then
        Done (st, enif_make_badarg)
      else
        path ← memcpy path (data path_bin) (size path_bin);
        path ← store path (size path_bin) x00;
        '(st, m) ← call_model_new st path;
        if decide (m = NULL) then
          Done (st, Value (make_error "model_load_failed"))
        else
          let '(st, res) := enif_alloc_resource st MODEL_TYPE in
          st ← set_model st res m;
          let '(st, term) := enif_make_resource st res in
          let st := enif_release_resource st res in
          Done (st, Value (enif_make_tuple2 (enif_make_atom "ok") term))
  end.

(* Find word in model *)
Definition find_word_nif : nif := fun st argv =>
  a0 ← arg argv 0;
  match enif_get_resource st a0 MODEL_TYPE with
  | None => Done (st, enif_make_badarg)
  | Some model_res =>
      a1 ← arg argv 1;
      match enif_inspect_binary a1 with
      | None => Done (st, enif_make_badarg)
      | Some word_bin =>
          (* Ensure null termination *)
          let word := char_array 256 in
          if decide (size word_bin >= sizeof word)%nat then
            Done (st, enif_make_badarg)
          else
            word ← memcpy word (data word_bin) (size word_bin);
            word ← store word (size word_bin) x00;
            m ← get_model st model_res;
            '(st, result) ← call_model_find_word st m word;
            Done (st, Value (enif_make_int result))
      end
  end.

(* Create recognizer *)
Definition create_recognizer_nif : nif := fun st argv =>
  a0 ← arg argv 0;
  match enif_get_resource st a0 MODEL_TYPE with
  | None => Done (st, enif_make_badarg)
  | Some model_res =>
      a1 ← arg argv 1;
      match enif_get_double a1 with
      | None => Done (st, enif_make_badarg)
      | Some sample_rate =>
          m ← get_model st model_res;
          let '(st, rec) :=
            call_recognizer_new st m (float_of_double sample_rate) in
          if decide (rec = NULL) then
            Done (st, Value (make_error "recognizer_creation_failed"))
          else
            let '(st, res) := enif_alloc_resource st RECOGNIZER_TYPE in
            st ← set_recognizer st res rec;
            let '(st, term) := enif_make_resource st res in
            let st := enif_release_resource st res in
            Done (st, Value (enif_make_tuple2 (enif_make_atom "ok") term))
      end
  end.

(* Set max alternatives *)
Definition set_max_alternatives_nif : nif := fun st argv =>
  a0 ← arg argv 0;
  match enif_get_resource st a0 RECOGNIZER_TYPE with
  | None => Done (st, enif_make_badarg)
  | Some rec_res =>
      a1 ← arg argv 1;
      match enif_get_int a1 with
      | None => Done (st, enif_make_badarg)
      | Some max_alternatives =>
          r ← get_recognizer st rec_res;
          let st := call_recognizer_set_max_alternatives st r max_alternatives in
          Done (st, Value (enif_make_atom "ok"))
      end
  end.

(* Set words *)
Definition set_words_nif : nif := fun st argv =>
  a0 ← arg argv 0;
  match enif_get_resource st a0 RECOGNIZER_TYPE with
  | None => Done (st, enif_make_badarg)
  | Some rec_res =>
      a1 ← arg argv 1;
      match enif_get_int a1 with
      | None => Done (st, enif_make_badarg)
      | Some words =>
          r ← get_recognizer st rec_res;
          let st := call_recognizer_set_words st r words in
          Done (st, Value (enif_make_atom "ok"))
      end
  end.

(* Set partial words *)
Definition set_partial_words_nif : nif := fun st argv =>
  a0 ← arg argv 0;
  match enif_get_resource st a0 RECOGNIZER_TYPE with
  | None => Done (st, enif_make_badarg)
  | Some rec_res =>
      a1 ← arg argv 1;
      match enif_get_int a1 with
      | None => Done (st, enif_make_badarg)
      | Some partial_words =>
          r ← get_recognizer st rec_res;
          let st := call_recognizer_set_partial_words st r partial_words in
          Done (st, Value (enif_make_atom "ok"))
      end
  end.

(* Accept waveform (dirty NIF for potentially long operation) *)
Definition accept_waveform_nif : nif := fun st argv =>
  a0 ← arg argv 0;
  match enif_get_resource st a0 RECOGNIZER_TYPE with
  | None => Done (st, enif_make_badarg)
  | Some rec_res =>
      a1 ← arg argv 1;
      match enif_inspect_binary a1 with
      | None => Done (st, enif_make_badarg)
      | Some audio_data =>
          r ← get_recognizer st rec_res;
          let '(st, result) :=
            call_recognizer_accept_waveform st r
              (data audio_data) (int_of_size_t (size audio_data)) in
          Done (st, Value (enif_make_int result))
      end
  end.

(* Get result *)
Definition get_result_nif : nif := fun st argv =>
  a0 ← arg argv 0;
  match enif_get_resource st a0 RECOGNIZER_TYPE with
  | None => Done (st, enif_make_badarg)
  | Some rec_res =>
      r ← get_recognizer st rec_res;
      let '(st, result) := call_recognizer_result st r in
      Done (st, Value (enif_make_string result ERL_NIF_UTF8))
  end.

(* Get partial result *)
Definition get_partial_result_nif : nif := fun st argv =>
  a0 ← arg argv 0;
  match enif_get_resource st a0 RECOGNIZER_TYPE with
  | None => Done (st, enif_make_badarg)
  | Some rec_res =>
      r ← get_recognizer st rec_res;
      let '(st, result) := call_recognizer_partial_result st r in
      Done (st, Value (enif_make_string result ERL_NIF_UTF8))
  end.

(* Get final result *)
Definition get_final_result_nif : nif := fun st argv =>
  a0 ← arg argv 0;
  match enif_get_resource st a0 RECOGNIZER_TYPE with
  | None => Done (st, enif_make_badarg)
  | Some rec_res =>
      r ← get_recognizer st rec_res;
      let '(st, result) := call_recognizer_final_result st r in
      Done (st, Value (enif_make_string result ERL_NIF_UTF8))
  end.

(* Reset recognizer *)
Definition reset_recognizer_nif : nif := fun st argv =>
  a0 ← arg argv 0;
  match enif_get_resource st a0 RECOGNIZER_TYPE with
  | None => Done (st, enif_make_badarg)
  | Some rec_res =>
      r ← get_recognizer st rec_res;
      let st := call_recognizer_reset st r in
      Done (st, Value (enif_make_atom "ok"))
  end.

(* NIF initialization callback *)
(** [enif_open_resource_type] is the runtime's answer to a registration
    under the given name: the type, or [None] for a null pointer.  The
    value returned is the [int] the runtime reads: 0 lets the module load. *)
Definition load (enif_open_resource_type : string -> option ErlNifResourceType)
  (st : world) (load_info : ERL_NIF_TERM) : world * Z :=
  (* Set log level from load_info parameter (passed from Elixir) *)
  (* Default to -1 (silent) if not an integer *)
  let log_level := -1 in
  let log_level :=
    match enif_get_int load_info with
    | Some v => v
    | None => -1  (* Default to silent if invalid *)
    end in
  let st := call_set_log_level st log_level in
  let model_type := enif_open_resource_type "VoskModel"%string in
  let recognizer_type := enif_open_resource_type "VoskRecognizer"%string in
  if decide (model_type = None \/ recognizer_type = None) then (st, 1)
  else (st, 0).

(** ** The export table *)

(** The two values of [ErlNifDirtyTaskFlags] in erl_nif.h. *)
Definition ERL_NIF_DIRTY_JOB_CPU_BOUND : Z := 1.
Definition ERL_NIF_DIRTY_JOB_IO_BOUND : Z := 2.

Record ErlNifFunc := {
  name : string;
  arity : nat;
  fptr : nif;
  flags : Z
}.

(* NIF function exports *)
Definition nif_funcs : list ErlNifFunc := [
  {| name := "set_log_level"; arity := 1; fptr := set_log_level_nif; flags := 0 |};
  {| name := "load_model"; arity := 1; fptr := load_model_nif; flags := 0 |};
  {| name := "find_word"; arity := 2; fptr := find_word_nif; flags := 0 |};
  {| name := "create_recognizer"; arity := 2; fptr := create_recognizer_nif; flags := 0 |};
  {| name := "set_max_alternatives"; arity := 2; fptr := set_max_alternatives_nif; flags := 0 |};
  {| name := "set_words"; arity := 2; fptr := set_words_nif; flags := 0 |};
  {| name := "set_partial_words"; arity := 2; fptr := set_partial_words_nif; flags := 0 |};
  {| name := "accept_waveform"; arity := 2; fptr := accept_waveform_nif;
     flags := ERL_NIF_DIRTY_JOB_CPU_BOUND |};
  {| name := "get_result"; arity := 1; fptr := get_result_nif; flags := 0 |};
  {| name := "get_partial_result"; arity := 1; fptr := get_partial_result_nif; flags := 0 |};
  {| name := "get_final_result"; arity := 1; fptr := get_final_result_nif; flags := 0 |};
  {| name := "reset_recognizer"; arity := 1; fptr := reset_recognizer_nif; flags := 0 |}
].

(** Where the runtime executes a NIF, decided by the flags of its table
    entry: on the scheduler thread of the calling process, or as a job on
    one of the two pools of dirty schedulers, the calling scheduler thread
    going on with other processes meanwhile. *)
Inductive execution_context :=
| CallingScheduler
| DirtyCpuScheduler
| DirtyIoScheduler.

Definition scheduled_on (f : ErlNifFunc) : execution_context :=
  if decide (flags f = ERL_NIF_DIRTY_JOB_CPU_BOUND) then DirtyCpuScheduler
  else if decide (flags f = ERL_NIF_DIRTY_JOB_IO_BOUND) then DirtyIoScheduler
  else CallingScheduler.

(** The runtime calls an exported function by name with as many arguments
    as its entry declares; any other call never reaches the C code. *)
Definition apply_nif (fname : string) (st : world) (argv : list ERL_NIF_TERM)
  : option (outcome (world * nif_result)) :=
  match find (fun f => String.eqb (name f) fname
                       && Nat.eqb (arity f) (length argv)) nif_funcs with
  | Some f => Some (fptr f st argv)
  | None => None
  end.

End Nif.

(** ** Vocabulary for the statements *)

(** The shapes a NIF of this module hands back: [ok], [{ok, Handle}], an
    integer, a string, [{error, Reason}], or the [badarg] exception. *)
Definition exposed_result (r : nif_result) : bool :=
  match r with
  | Badarg => true
  | Value (Atom a) => String.eqb a "ok"
  | Value (Integer _) => true
  | Value (CharList _ _) => true
  | Value (Tuple [Atom a; Resource _]) => String.eqb a "ok"
  | Value (Tuple [Atom a; Atom _]) => String.eqb a "error"
  | Value _ => false
  end.

(** An array of [n] chars that holds [s], a terminator, and indeterminate
    bytes up to its end. *)
Definition terminated_array (n : nat) (s : list byte) : list cell :=
  (Some <$> s) ++ Some x00 :: replicate (n - S (length s)) None.

(** The two tagged failure values of the module. *)
Definition domain_errors : list nif_result :=
  [ Value (make_error "model_load_failed");
    Value (make_error "recognizer_creation_failed") ].

Definition holds_model (h : list resource) (m : ptr) : bool :=
  existsb (fun r => match payload r with
                    | ModelData x => Z.eqb (model x) m
                    | RecognizerData _ => false
                    end) h.

Definition holds_recognizer (h : list resource) (p : ptr) : bool :=
  existsb (fun r => match payload r with
                    | RecognizerData x => Z.eqb (recognizer x) p
                    | ModelData _ => false
                    end) h.

(** A call into the engine is checked against the resource objects [h]
    when every pointer it passes is the field of an object of the expected
    struct, every string it passes is terminated inside its array with no
    indeterminate byte before the terminator, every [int] is one, and a
    byte count does not exceed the bytes behind the pointer and is their
    number whenever that number fits an [int]; nothing is said of the
    count of a longer buffer.  The NIFs never free. *)
Definition checked_call (h : list resource) (c : native_call) : bool :=
  match c with
  | Call_set_log_level l => in_int_range l
  | Call_model_new path => is_done (c_str path)
  | Call_model_free _ => false
  | Call_model_find_word m word => holds_model h m && is_done (c_str word)
  | Call_recognizer_new m _ => holds_model h m
  | Call_recognizer_free _ => false
  | Call_recognizer_set_max_alternatives r n =>
      holds_recognizer h r && in_int_range n
  | Call_recognizer_set_words r n => holds_recognizer h r && in_int_range n
  | Call_recognizer_set_partial_words r n =>
      holds_recognizer h r && in_int_range n
  | Call_recognizer_accept_waveform r bytes len =>
      holds_recognizer h r && in_int_range len
      && (len <=? Z.of_nat (length bytes))
      && implb (Z.of_nat (length bytes) <=? INT_MAX)
           (len =? Z.of_nat (length bytes))
  | Call_recognizer_result r => holds_recognizer h r
  | Call_recognizer_partial_result r => holds_recognizer h r
  | Call_recognizer_final_result r => holds_recognizer h r
  | Call_recognizer_reset r => holds_recognizer h r
  end.


Section Operations.
Context {E : Type} {api : VoskApi E}.

(** The entry points that resolve their first argument against
    [RECOGNIZER_TYPE], and those that resolve it against [MODEL_TYPE]. *)
Definition recognizer_operations : list (@nif E) :=
  [ set_max_alternatives_nif; set_words_nif; set_partial_words_nif;
    accept_waveform_nif; get_result_nif; get_partial_result_nif;
    get_final_result_nif; reset_recognizer_nif ].

Definition model_operations : list (@nif E) :=
  [ find_word_nif; create_recognizer_nif ].

(** An outcome of a NIF called in state [st] is safe when the NIF returned
    one of the exposed shapes, a badarg left the state as it was, and the
    call made into the engine, if any, was a checked one. *)
Definition safe_outcome (st : @world E) (o : outcome (@world E * nif_result))
  : Prop :=
  exists st' r,
    o = Done (st', r)
    /\ exposed_result r = true
    /\ (r = Badarg -> st' = st)
    /\ (calls st' = calls st
        \/ exists c, calls st' = calls st ++ [c]
                     /\ checked_call (heap st) c = true).

End Operations.

(** ** Vocabulary for the invariants *)

(** The one pointer a resource object holds. *)
Definition pointer_of (r : resource) : ptr :=
  match payload r with
  | ModelData m => model m
  | RecognizerData x => recognizer x
  end.

(** Every resource object holds a non-null pointer. *)
Definition live_heap (h : list resource) : bool :=
  forallb (fun r => negb (Z.eqb (pointer_of r) NULL)) h.

(** The copy and the terminator store of the two marshalling sites, then
    the read by the callee, without the size check in front. *)
Definition copy_terminate_read (n : nat) (s : list byte)
  : outcome (list byte) :=
  buf ← memcpy (char_array n) s (length s);
  buf ← store buf (length s) x00;
  c_str buf.

Section Steps.
Context {E : Type} {api : VoskApi E}.

(** What one NIF call may do to the resource objects: nothing, or add one
    object, referenced once, holding a non-null pointer, and hand back
    [{ok, Handle}] for it. *)
Definition nif_step (st : @world E) (o : outcome (@world E * nif_result))
  : Prop :=
  exists st' r,
    o = Done (st', r)
    /\ (heap st' = heap st
        \/ exists x,
             heap st' = heap st ++ [x]
             /\ refc x = 1%nat
             /\ pointer_of x <> NULL
             /\ r = Value (Tuple [Atom "ok"; Resource (length (heap st))])).

(** The entry of the export table a call by name and argument count
    selects. *)
Definition lookup_nif (fname : string) (argc : nat) : option ErlNifFunc :=
  find (fun f => String.eqb (name f) fname && Nat.eqb (arity f) argc)
    nif_funcs.

End Steps.

(** ** A small engine to run the NIFs on

    The engine state counts the objects handed out; the address of the
    [n]-th object is [n].  An empty path has no model, a negative or
    non-finite sample rate has no recognizer. *)

Definition json_empty : list byte := ["{"; "}"]%byte.

Definition counting_engine : VoskApi Z := {|
  vosk_set_log_level e _ := e;
  vosk_model_new e path :=
    match path with
    | [] => (e, NULL)
    | _ => (e + 1, e + 1)
    end;
  vosk_model_free e _ := e;
  vosk_model_find_word e _ word :=
    (e, match word with
        | [] => -1
        | _ => Z.of_nat (length word)
        end);
  vosk_recognizer_new e _ rate :=
    match rate with
    | S754_finite false _ _ => (e + 1, e + 1)
    | _ => (e, NULL)
    end;
  vosk_recognizer_free e _ := e;
  vosk_recognizer_set_max_alternatives e _ _ := e;
  vosk_recognizer_set_words e _ _ := e;
  vosk_recognizer_set_partial_words e _ _ := e;
  vosk_recognizer_accept_waveform e _ _ len :=
    (e, if len <? 0 then -1 else len mod 2);
  vosk_recognizer_result e _ := (e, json_empty);
  vosk_recognizer_partial_result e _ := (e, json_empty);
  vosk_recognizer_final_result e _ := (e, json_empty);
  vosk_recognizer_reset e _ := e
|}.

Definition empty_world : @world Z :=
  {| heap := []; engine := 0; calls := [] |}.

(** A world with a model at address 7 in object 0 and a recognizer at
    address 9 in object 1. *)
Definition two_handles : @world Z :=
  {| heap := [ {| payload := ModelData {| model := 7 |}; refc := 1 |};
               {| payload := RecognizerData {| recognizer := 9 |}; refc := 1 |} ];
     engine := 2;
     calls := [] |}.

(** A runtime that registers the two resource types of this module, and
    one that refuses every registration. *)
Definition registers_both (name : string) : option ErlNifResourceType :=
  if String.eqb name "VoskModel" then Some VoskModel
  else if String.eqb name "VoskRecognizer" then Some VoskRecognizer
  else None.

Definition registers_none (name : string) : option ErlNifResourceType := None.

Definition sixteen_khz : double := S754_finite false 0x1F400000000000 (-39).
Definition minus_sixteen_khz : double := S754_finite true 0x1F400000000000 (-39).
Definition one_tenth : double := S754_finite false 0x1999999999999A (-56).

(** A world whose only object is a model at address 7, and one whose
    only object is a recognizer at address 9. *)
Definition only_a_model : @world Z :=
  {| heap := [ {| payload := ModelData {| model := 7 |}; refc := 1 |} ];
     engine := 1;
     calls := [] |}.

Definition only_a_recognizer : @world Z :=
  {| heap := [ {| payload := RecognizerData {| recognizer := 9 |}; refc := 1 |} ];
     engine := 1;
     calls := [] |}.



(** The table entry of [load_model], and [two_handles] after it has
    loaded the model at path "m". *)
Definition load_model_entry : @ErlNifFunc Z :=
  {| name := "load_model"; arity := 1;
     fptr := load_model_nif (api := counting_engine); flags := 0 |}.

Definition after_load_model : @world Z :=
  {| heap := heap two_handles
             ++ [ {| payload := ModelData {| model := 3 |}; refc := 1 |} ];
     engine := 3;
     calls := [Call_model_new (terminated_array 1024 ["m"%byte])] |}.

(** ** Runs on concrete inputs *)

Example float_of_double_16000 :
  float_of_double sixteen_khz = S754_finite false 16384000 (-10).
Proof. reflexivity. Qed.

Example float_of_double_one_tenth :
  float_of_double one_tenth = S754_finite false 0xCCCCCD (-27).
Proof. reflexivity. Qed.

Example float_of_double_overflow :
  float_of_double (S754_finite false 0x1FFFFFFFFFFFFF 971) = S754_infinity false.
Proof. reflexivity. Qed.

Example sample_rates_are_valid :
  is_double sixteen_khz = true
  /\ is_double one_tenth = true
  /\ is_float one_tenth = false
  /\ is_float (float_of_double one_tenth) = true
  /\ is_float (float_of_double sixteen_khz) = true.
Proof. repeat split. Qed.

Example int_of_size_t_small : int_of_size_t 3200 = 3200.
Proof. reflexivity. Qed.

Example c_str_stops_at_nul :
  c_str [Some "a"; Some "b"; Some x00; Some "c"; None]%byte = Done ["a"; "b"]%byte.
Proof. reflexivity. Qed.

Example c_str_unterminated : c_str [Some "a"; Some "b"]%byte = Undefined.
Proof. reflexivity. Qed.

Example load_model_run :
  load_model_nif (api := counting_engine) empty_world [Binary ["m"]%byte]
  = Done ({| heap := [ {| payload := ModelData {| model := 1 |}; refc := 1 |} ];
             engine := 1;
             calls := [Call_model_new
                         (Some "m"%byte :: Some x00 :: replicate 1022 None)] |},
          Value (Tuple [Atom "ok"; Resource 0])).
Proof. vm_compute. reflexivity. Qed.

Example load_model_empty_path :
  load_model_nif (api := counting_engine) empty_world [Binary []]
  = Done ({| heap := []; engine := 0;
             calls := [Call_model_new (Some x00 :: replicate 1023 None)] |},
          Value (Tuple [Atom "error"; Atom "model_load_failed"])).
Proof. vm_compute. reflexivity. Qed.

Example find_word_run :
  find_word_nif (api := counting_engine) two_handles
    [Resource 0; Binary ["h"; "i"]%byte]
  = Done ({| heap := heap two_handles; engine := 2;
             calls := [Call_model_find_word 7
                         (Some "h"%byte :: Some "i"%byte :: Some x00
                          :: replicate 253 None)] |},
          Value (Integer 2)).
Proof. vm_compute. reflexivity. Qed.

Example accept_waveform_run :
  accept_waveform_nif (api := counting_engine) two_handles
    [Resource 1; Binary [x00; x00; x00]]
  = Done ({| heap := heap two_handles; engine := 2;
             calls := [Call_recognizer_accept_waveform 9 [x00; x00; x00] 3] |},
          Value (Integer 1)).
Proof. vm_compute. reflexivity. Qed.

Example load_run :
  load (api := counting_engine) registers_both empty_world (Integer 0)
  = ({| heap := []; engine := 0; calls := [Call_set_log_level 0] |}, 0).
Proof. reflexivity. Qed.

Example load_registration_refused :
  snd (load (api := counting_engine) registers_none empty_world (Integer 0)) = 1.
Proof. reflexivity. Qed.

Example apply_nif_accept_waveform :
  apply_nif (api := counting_engine) "accept_waveform" two_handles
    [Resource 1; Binary [x00; x00]]
  = Some (Done ({| heap := heap two_handles; engine := 2;
                   calls := [Call_recognizer_accept_waveform 9 [x00; x00] 2] |},
                Value (Integer 0))).
Proof. reflexivity. Qed.

Example apply_nif_wrong_arity :
  apply_nif (api := counting_engine) "accept_waveform" two_handles [Resource 1]
  = None.
Proof. reflexivity. Qed.

Example get_result_run :
  get_result_nif (api := counting_engine) two_handles [Resource 1]
  = Done ({| heap := heap two_handles; engine := 2;
             calls := [Call_recognizer_result 9] |},
          Value (CharList ERL_NIF_UTF8 json_empty)).
Proof. reflexivity. Qed.

Example get_result_on_model_handle :
  get_result_nif (api := counting_engine) two_handles [Resource 0]
  = Done (two_handles, Badarg).
Proof. reflexivity. Qed.

Example model_destructor_run :
  model_destructor (api := counting_engine) two_handles 0
  = Done {| heap := [ {| payload := ModelData {| model := NULL |}; refc := 1 |};
                      {| payload := RecognizerData {| recognizer := 9 |}; refc := 1 |} ];
            engine := 2;
            calls := [Call_model_free 7] |}.
Proof. reflexivity. Qed.

(** ** Character arrays and C strings *)

Section Marshalling.

Lemma until_nul_no_nul (s : list byte) :
  x00 ∉ s -> until_nul s = s.
Proof.
  induction s as [|c s IH]; intros Hs; [reflexivity|].
  apply not_elem_of_cons in Hs as [Hc Hs]. simpl.
  destruct (Byte.eqb c x00) eqn:Heq.
  - apply Byte.byte_dec_bl in Heq. congruence.
  - f_equal. auto.
Qed.

Lemma until_nul_interior (pre post : list byte) :
  x00 ∉ pre -> until_nul (pre ++ x00 :: post) = pre.
Proof.
  induction pre as [|c pre IH]; intros Hs; [reflexivity|].
  apply not_elem_of_cons in Hs as [Hc Hs]. simpl.
  destruct (Byte.eqb c x00) eqn:Heq.
  - apply Byte.byte_dec_bl in Heq. congruence.
  - f_equal. auto.
Qed.

(** A callee reads an array that starts with [s] and a terminator up to the
    first zero byte of [s], whatever follows the terminator. *)
Lemma c_str_terminated (s : list byte) (rest : list cell) :
  c_str ((Some <$> s) ++ Some x00 :: rest) = Done (until_nul s).
Proof.
  induction s as [|c s IH]; [reflexivity|].
  rewrite fmap_cons. cbn [app c_str until_nul].
  destruct (Byte.eqb c x00); [reflexivity|].
  rewrite IH. reflexivity.
Qed.

Lemma sizeof_char_array (n : nat) : sizeof (char_array n) = n.
Proof. apply length_replicate. Qed.

(** The copy and the terminator store of the two marshalling sites, for an
    input that passed the size check. *)
Lemma memcpy_char_array (n : nat) (s : list byte) :
  (length s < n)%nat ->
  memcpy (char_array n) s (length s)
  = Done ((Some <$> s) ++ replicate (n - length s) None).
Proof.
  intros Hlt. unfold memcpy, char_array.
  rewrite length_replicate, decide_True by lia.
  rewrite firstn_all, drop_replicate. reflexivity.
Qed.

Lemma store_terminator (n : nat) (s : list byte) :
  (length s < n)%nat ->
  store ((Some <$> s) ++ replicate (n - length s) None) (length s) x00
  = Done (terminated_array n s).
Proof.
  intros Hlt. unfold store, terminated_array.
  rewrite decide_True
    by (rewrite length_app, length_fmap, length_replicate; lia).
  f_equal.
  replace (n - length s)%nat with (S (n - S (length s))) by lia.
  cbn [replicate].
  rewrite insert_app_r_alt by (rewrite length_fmap; lia).
  rewrite length_fmap, Nat.sub_diag. reflexivity.
Qed.

(** The array a marshalling site hands to the engine for input [s]. *)
Lemma marshalled_prefix (n : nat) (s : list byte) :
  take (S (length s)) (terminated_array n s) = (Some <$> s) ++ [Some x00].
Proof.
  unfold terminated_array.
  rewrite take_app_ge by (rewrite length_fmap; lia).
  rewrite length_fmap.
  replace (S (length s) - length s)%nat with 1%nat by lia.
  reflexivity.
Qed.

Lemma marshalled_length (n : nat) (s : list byte) :
  (length s < n)%nat ->
  length (terminated_array n s) = n.
Proof.
  intros Hlt. unfold terminated_array. rewrite length_app, length_fmap. cbn [length].
  rewrite length_replicate. lia.
Qed.

Lemma c_str_terminated_array (n : nat) (s : list byte) :
  c_str (terminated_array n s) = Done (until_nul s).
Proof. apply c_str_terminated. Qed.

End Marshalling.

(** ** Resource objects and the destructors *)

Section Destructors.
Context {E : Type} {api : VoskApi E}.
Implicit Types (st : @world E) (obj : nat) (p : ptr).

Lemma get_model_lookup st obj p n :
  heap st !! obj = Some {| payload := ModelData {| model := p |}; refc := n |} ->
  get_model st obj = Done p.
Proof. intros H. unfold get_model. rewrite H. reflexivity. Qed.

Lemma get_recognizer_lookup st obj p n :
  heap st !! obj
  = Some {| payload := RecognizerData {| recognizer := p |}; refc := n |} ->
  get_recognizer st obj = Done p.
Proof. intros H. unfold get_recognizer. rewrite H. reflexivity. Qed.

Lemma frees_of_snoc p (cs : list native_call) (c : native_call) :
  frees_of p (cs ++ [c])
  = (frees_of p cs + if is_free_of p c then 1 else 0)%nat.
Proof.
  unfold frees_of. rewrite filter_app, length_app. f_equal.
  rewrite filter_cons, filter_nil.
  destruct (is_free_of p c); [rewrite decide_True by done
                             |rewrite decide_False by done]; reflexivity.
Qed.

Lemma model_destructor_releases st obj p n :
  p <> NULL ->
  heap st !! obj = Some {| payload := ModelData {| model := p |}; refc := n |} ->
  model_destructor st obj
  = Done {| heap := <[obj := {| payload := ModelData {| model := NULL |};
                               refc := n |}]> (heap st);
            engine := vosk_model_free (engine st) p;
            calls := calls st ++ [Call_model_free p] |}.
Proof.
  intros Hp H. unfold model_destructor.
  rewrite (get_model_lookup _ _ _ _ H). cbn [mbind outcome_bind].
  rewrite decide_True by assumption.
  unfold set_model, call_model_free, enter. cbn [heap]. rewrite H.
  reflexivity.
Qed.

Lemma model_destructor_null st obj n :
  heap st !! obj = Some {| payload := ModelData {| model := NULL |}; refc := n |} ->
  model_destructor st obj = Done st.
Proof.
  intros H. unfold model_destructor.
  rewrite (get_model_lookup _ _ _ _ H). reflexivity.
Qed.

Lemma recognizer_destructor_releases st obj p n :
  p <> NULL ->
  heap st !! obj
  = Some {| payload := RecognizerData {| recognizer := p |}; refc := n |} ->
  recognizer_destructor st obj
  = Done {| heap := <[obj := {| payload := RecognizerData {| recognizer := NULL |};
                               refc := n |}]> (heap st);
            engine := vosk_recognizer_free (engine st) p;
            calls := calls st ++ [Call_recognizer_free p] |}.
Proof.
  intros Hp H. unfold recognizer_destructor.
  rewrite (get_recognizer_lookup _ _ _ _ H). cbn [mbind outcome_bind].
  rewrite decide_True by assumption.
  unfold set_recognizer, call_recognizer_free, enter. cbn [heap]. rewrite H.
  reflexivity.
Qed.

Lemma recognizer_destructor_null st obj n :
  heap st !! obj
  = Some {| payload := RecognizerData {| recognizer := NULL |}; refc := n |} ->
  recognizer_destructor st obj = Done st.
Proof.
  intros H. unfold recognizer_destructor.
  rewrite (get_recognizer_lookup _ _ _ _ H). reflexivity.
Qed.

(** C1.  A destructor run twice on the same resource object frees once.
    For a model object holding a non-null pointer [m], in any state: the
    first run of [model_destructor] releases the native resource, that is,
    it makes exactly one call into the engine, [vosk_model_free] on [m],
    whose effect on the engine is the state after the run, and it leaves
    null in the object and every other object as it was; the second run
    returns the state it was given, so the engine has been asked to free
    [m] once more than before the two runs.  The same holds for a
    recognizer object and [recognizer_destructor], with
    [vosk_recognizer_free]. *)
Theorem destructor_twice_frees_once :
  (forall st (mobj : nat) (m : ptr) (mrefs : nat),
      m <> NULL ->
      heap st !! mobj
      = Some {| payload := ModelData {| model := m |}; refc := mrefs |} ->
      exists st1,
        model_destructor st mobj = Done st1 /\
        engine st1 = vosk_model_free (engine st) m /\
        calls st1 = calls st ++ [Call_model_free m] /\
        heap st1
        = <[mobj := {| payload := ModelData {| model := NULL |};
                       refc := mrefs |}]> (heap st) /\
        get_model st1 mobj = Done NULL /\
        model_destructor st1 mobj = Done st1 /\
        frees_of m (calls st1) = S (frees_of m (calls st)))
  /\
  (forall st (robj : nat) (r : ptr) (rrefs : nat),
      r <> NULL ->
      heap st !! robj
      = Some {| payload := RecognizerData {| recognizer := r |};
                refc := rrefs |} ->
      exists st1,
        recognizer_destructor st robj = Done st1 /\
        engine st1 = vosk_recognizer_free (engine st) r /\
        calls st1 = calls st ++ [Call_recognizer_free r] /\
        heap st1
        = <[robj := {| payload := RecognizerData {| recognizer := NULL |};
                       refc := rrefs |}]> (heap st) /\
        get_recognizer st1 robj = Done NULL /\
        recognizer_destructor st1 robj = Done st1 /\
        frees_of r (calls st1) = S (frees_of r (calls st))).
Proof.
  split.
  - intros st mobj m mrefs Hm Hmo.
    assert (Hml : (mobj < length (heap st))%nat)
      by (eapply lookup_lt_Some; eauto).
    eexists. split; [eauto using model_destructor_releases|].
    cbn [engine calls heap].
    split; [reflexivity|]. split; [reflexivity|]. split; [reflexivity|].
    assert (Hnull : heap {| heap := <[mobj := {| payload := ModelData {| model := NULL |};
                                              refc := mrefs |}]> (heap st);
                            engine := vosk_model_free (engine st) m;
                            calls := calls st ++ [Call_model_free m] |} !! mobj
                    = Some {| payload := ModelData {| model := NULL |}; refc := mrefs |})
      by (cbn [heap]; apply list_lookup_insert_eq; assumption).
    split; [eapply get_model_lookup; exact Hnull|].
    split; [eapply model_destructor_null; exact Hnull|].
    rewrite frees_of_snoc. cbn [is_free_of]. rewrite Z.eqb_refl. lia.
  - intros st robj r rrefs Hr Hro.
    assert (Hrl : (robj < length (heap st))%nat)
      by (eapply lookup_lt_Some; eauto).
    eexists. split; [eauto using recognizer_destructor_releases|].
    cbn [engine calls heap].
    split; [reflexivity|]. split; [reflexivity|]. split; [reflexivity|].
    assert (Hnull : heap {| heap := <[robj := {| payload := RecognizerData {| recognizer := NULL |};
                                              refc := rrefs |}]> (heap st);
                            engine := vosk_recognizer_free (engine st) r;
                            calls := calls st ++ [Call_recognizer_free r] |} !! robj
                    = Some {| payload := RecognizerData {| recognizer := NULL |};
                              refc := rrefs |})
      by (cbn [heap]; apply list_lookup_insert_eq; assumption).
    split; [eapply get_recognizer_lookup; exact Hnull|].
    split; [eapply recognizer_destructor_null; exact Hnull|].
    rewrite frees_of_snoc. cbn [is_free_of]. rewrite Z.eqb_refl. lia.
Qed.

End Destructors.

(** On a state that holds only a model, and on one that holds only a
    recognizer. *)
Lemma destructor_twice_frees_once_witness :
  (exists st1,
      model_destructor (api := counting_engine) only_a_model 0 = Done st1 /\
      engine st1 = 1 /\
      calls st1 = [Call_model_free 7] /\
      heap st1 = [ {| payload := ModelData {| model := NULL |}; refc := 1 |} ] /\
      get_model st1 0 = Done NULL /\
      model_destructor (api := counting_engine) st1 0 = Done st1 /\
      frees_of 7 (calls st1) = 1%nat)
  /\
  (exists st1,
      recognizer_destructor (api := counting_engine) only_a_recognizer 0
      = Done st1 /\
      engine st1 = 1 /\
      calls st1 = [Call_recognizer_free 9] /\
      heap st1
      = [ {| payload := RecognizerData {| recognizer := NULL |}; refc := 1 |} ] /\
      get_recognizer st1 0 = Done NULL /\
      recognizer_destructor (api := counting_engine) st1 0 = Done st1 /\
      frees_of 9 (calls st1) = 1%nat).
Proof.
  split.
  - apply (proj1 (destructor_twice_frees_once (api := counting_engine))
             only_a_model 0%nat 7 1%nat); [discriminate | reflexivity].
  - apply (proj2 (destructor_twice_frees_once (api := counting_engine))
             only_a_recognizer 0%nat 9 1%nat); [discriminate | reflexivity].
Defined.

(** ** The entry points, evaluated *)

Section EntryPoints.
Context {E : Type} {api : VoskApi E}.
Implicit Types (st : @world E) (obj : nat) (p : ptr) (argv : list ERL_NIF_TERM).

(** Wrapping a pointer: allocate, assign the field, make the term, release
    the reference held by the C code. *)
Lemma alter_new_object (h : list resource) (x : resource) (f : resource -> resource) :
  alter f (length h) (h ++ [x]) = h ++ [f x].
Proof.
  rewrite alter_app_r_alt by lia. rewrite Nat.sub_diag. reflexivity.
Qed.

Lemma insert_new_object (h : list resource) (x y : resource) :
  <[length h := y]> (h ++ [x]) = h ++ [y].
Proof.
  rewrite insert_app_r_alt by lia. rewrite Nat.sub_diag. reflexivity.
Qed.

Lemma lookup_new_object (h : list resource) (x : resource) :
  (h ++ [x]) !! length h = Some x.
Proof. apply list_lookup_middle. reflexivity. Qed.

Lemma enif_get_resource_model st obj p n :
  heap st !! obj = Some {| payload := ModelData {| model := p |}; refc := n |} ->
  enif_get_resource st (Resource obj) MODEL_TYPE = Some obj.
Proof. intros H. unfold enif_get_resource. rewrite H. reflexivity. Qed.

Lemma enif_get_resource_recognizer st obj p n :
  heap st !! obj
  = Some {| payload := RecognizerData {| recognizer := p |}; refc := n |} ->
  enif_get_resource st (Resource obj) RECOGNIZER_TYPE = Some obj.
Proof. intros H. unfold enif_get_resource. rewrite H. reflexivity. Qed.

(** [enif_get_resource] hands back the object the term names, and the
    object has the struct of the type asked for. *)
Lemma enif_get_resource_Some st (t : ERL_NIF_TERM) (ty : ErlNifResourceType) obj :
  enif_get_resource st t ty = Some obj ->
  exists r, t = Resource obj /\ heap st !! obj = Some r /\ type_of r = ty.
Proof.
  unfold enif_get_resource. destruct t; try discriminate.
  destruct (heap st !! obj0) as [r|] eqn:Hr; [|discriminate].
  destruct (decide (type_of r = ty)); [|discriminate].
  intros [= <-]. eauto.
Qed.

Lemma resolved_model st (t : ERL_NIF_TERM) obj :
  enif_get_resource st t MODEL_TYPE = Some obj ->
  exists m, get_model st obj = Done m /\ holds_model (heap st) m = true.
Proof.
  intros H. apply enif_get_resource_Some in H as (r & _ & Hr & Hty).
  destruct r as [[[m]|[q]] n]; [|discriminate].
  exists m. split; [eapply get_model_lookup; eauto|].
  unfold holds_model. apply existsb_exists.
  eexists. split; [apply list_elem_of_In; eapply list_elem_of_lookup_2; eauto|].
  cbn. apply Z.eqb_refl.
Qed.

Lemma resolved_recognizer st (t : ERL_NIF_TERM) obj :
  enif_get_resource st t RECOGNIZER_TYPE = Some obj ->
  exists r, get_recognizer st obj = Done r
            /\ holds_recognizer (heap st) r = true.
Proof.
  intros H. apply enif_get_resource_Some in H as (x & _ & Hx & Hty).
  destruct x as [[[m]|[q]] n]; [discriminate|].
  exists q. split; [eapply get_recognizer_lookup; eauto|].
  unfold holds_recognizer. apply existsb_exists.
  eexists. split; [apply list_elem_of_In; eapply list_elem_of_lookup_2; eauto|].
  cbn. apply Z.eqb_refl.
Qed.

(** A handle of the other type does not resolve. *)
Lemma enif_get_resource_other st obj (r : resource) (ty : ErlNifResourceType) :
  heap st !! obj = Some r ->
  type_of r <> ty ->
  enif_get_resource st (Resource obj) ty = None.
Proof.
  intros H Hty. unfold enif_get_resource. rewrite H.
  rewrite decide_False by assumption. reflexivity.
Qed.

(** [load_model_nif] on a binary shorter than the array. *)
Lemma load_model_nif_accepted st (b : list byte) (e : E) (m : ptr) :
  (length b < 1024)%nat ->
  vosk_model_new (engine st) (until_nul b) = (e, m) ->
  load_model_nif st [Binary b]
  = if decide (m = NULL) then
      Done (enter st e (Call_model_new (terminated_array 1024 b)),
            Value (make_error "model_load_failed"))
    else
      Done ({| heap := heap st ++ [ {| payload := ModelData {| model := m |};
                                       refc := 1 |} ];
               engine := e;
               calls := calls st ++ [Call_model_new (terminated_array 1024 b)] |},
            Value (Tuple [Atom "ok"; Resource (length (heap st))])).
Proof.
  intros Hlt Hnew. unfold load_model_nif.
  cbn [arg lookup list_lookup mbind outcome_bind enif_inspect_binary size data].
  rewrite decide_False by (rewrite sizeof_char_array; lia).
  rewrite memcpy_char_array by assumption. cbn [mbind outcome_bind].
  rewrite store_terminator by assumption. cbn [mbind outcome_bind].
  unfold call_model_new. rewrite c_str_terminated_array.
  cbn [mbind outcome_bind]. rewrite Hnew. cbn [mbind outcome_bind].
  destruct (decide (m = NULL)); [reflexivity|].
  unfold enif_alloc_resource, set_model, enif_make_resource,
    enif_release_resource, with_heap, enter, MODEL_TYPE.
  cbn [heap engine calls]. rewrite lookup_new_object.
  cbn [payload refc mbind outcome_bind heap engine calls].
  rewrite insert_new_object, alter_new_object. cbn [payload refc].
  rewrite alter_new_object. reflexivity.
Qed.

(** [load_model_nif] on a binary that fills the array or more. *)
Lemma load_model_nif_too_long st (b : list byte) :
  (1024 <= length b)%nat ->
  load_model_nif st [Binary b] = Done (st, Badarg).
Proof.
  intros Hge. unfold load_model_nif.
  cbn [arg lookup list_lookup mbind outcome_bind enif_inspect_binary size data].
  rewrite decide_True by (rewrite sizeof_char_array; lia). reflexivity.
Qed.

(** [find_word_nif] on a model handle and a binary shorter than the
    array. *)
Lemma find_word_nif_accepted st obj (m : ptr) (n : nat) (b : list byte)
  (e : E) (result : Z) :
  heap st !! obj = Some {| payload := ModelData {| model := m |}; refc := n |} ->
  (length b < 256)%nat ->
  vosk_model_find_word (engine st) m (until_nul b) = (e, result) ->
  find_word_nif st [Resource obj; Binary b]
  = Done (enter st e (Call_model_find_word m (terminated_array 256 b)),
          Value (Integer result)).
Proof.
  intros Hobj Hlt Hfind. unfold find_word_nif.
  cbn [arg lookup list_lookup mbind outcome_bind].
  rewrite (enif_get_resource_model _ _ _ _ Hobj).
  cbn [arg lookup list_lookup mbind outcome_bind enif_inspect_binary size data].
  rewrite decide_False by (rewrite sizeof_char_array; lia).
  rewrite memcpy_char_array by assumption. cbn [mbind outcome_bind].
  rewrite store_terminator by assumption. cbn [mbind outcome_bind].
  rewrite (get_model_lookup _ _ _ _ Hobj). cbn [mbind outcome_bind].
  unfold call_model_find_word. rewrite c_str_terminated_array.
  cbn [mbind outcome_bind]. rewrite Hfind. reflexivity.
Qed.

(** [find_word_nif] on a binary that fills the array or more, whatever the
    first argument is. *)
Lemma find_word_nif_too_long st (a0 : ERL_NIF_TERM) (b : list byte) :
  (256 <= length b)%nat ->
  find_word_nif st [a0; Binary b] = Done (st, Badarg).
Proof.
  intros Hge. unfold find_word_nif.
  cbn [arg lookup list_lookup mbind outcome_bind].
  destruct (enif_get_resource st a0 MODEL_TYPE); [|reflexivity].
  cbn [arg lookup list_lookup mbind outcome_bind enif_inspect_binary size data].
  rewrite decide_True by (rewrite sizeof_char_array; lia). reflexivity.
Qed.

(** [create_recognizer_nif] on a model handle and a float. *)
Lemma create_recognizer_nif_accepted st obj (m : ptr) (n : nat) (d : double)
  (e : E) (r : ptr) :
  heap st !! obj = Some {| payload := ModelData {| model := m |}; refc := n |} ->
  vosk_recognizer_new (engine st) m (float_of_double d) = (e, r) ->
  create_recognizer_nif st [Resource obj; Float d]
  = if decide (r = NULL) then
      Done (enter st e (Call_recognizer_new m (float_of_double d)),
            Value (make_error "recognizer_creation_failed"))
    else
      Done ({| heap := heap st
                       ++ [ {| payload := RecognizerData {| recognizer := r |};
                               refc := 1 |} ];
               engine := e;
               calls := calls st
                        ++ [Call_recognizer_new m (float_of_double d)] |},
            Value (Tuple [Atom "ok"; Resource (length (heap st))])).
Proof.
  intros Hobj Hnew. unfold create_recognizer_nif.
  cbn [arg lookup list_lookup mbind outcome_bind].
  rewrite (enif_get_resource_model _ _ _ _ Hobj).
  cbn [arg lookup list_lookup mbind outcome_bind enif_get_double].
  rewrite (get_model_lookup _ _ _ _ Hobj). cbn [mbind outcome_bind].
  unfold call_recognizer_new. rewrite Hnew.
  destruct (decide (r = NULL)); [reflexivity|].
  unfold enif_alloc_resource, set_recognizer, enif_make_resource,
    enif_release_resource, with_heap, enter, RECOGNIZER_TYPE.
  cbn [heap engine calls]. rewrite lookup_new_object.
  cbn [payload refc mbind outcome_bind heap engine calls].
  rewrite insert_new_object, alter_new_object. cbn [payload refc].
  rewrite alter_new_object. reflexivity.
Qed.

(** [create_recognizer_nif] on a second argument that is not a float,
    whatever the first argument is. *)
Lemma create_recognizer_nif_not_float st (a0 a1 : ERL_NIF_TERM) :
  enif_get_double a1 = None ->
  create_recognizer_nif st [a0; a1] = Done (st, Badarg).
Proof.
  intros Hd. unfold create_recognizer_nif.
  cbn [arg lookup list_lookup mbind outcome_bind].
  destruct (enif_get_resource st a0 MODEL_TYPE); [|reflexivity].
  cbn [arg lookup list_lookup mbind outcome_bind]. rewrite Hd. reflexivity.
Qed.

(** [accept_waveform_nif] on a recognizer handle and a binary. *)
Lemma accept_waveform_nif_accepted st obj (r : ptr) (n : nat) (b : list byte)
  (e : E) (code : Z) :
  heap st !! obj
  = Some {| payload := RecognizerData {| recognizer := r |}; refc := n |} ->
  vosk_recognizer_accept_waveform (engine st) r b (int_of_size_t (length b))
  = (e, code) ->
  accept_waveform_nif st [Resource obj; Binary b]
  = Done (enter st e
            (Call_recognizer_accept_waveform r b (int_of_size_t (length b))),
          Value (Integer code)).
Proof.
  intros Hobj Hcall. unfold accept_waveform_nif.
  cbn [arg lookup list_lookup mbind outcome_bind].
  rewrite (enif_get_resource_recognizer _ _ _ _ Hobj).
  cbn [arg lookup list_lookup mbind outcome_bind enif_inspect_binary size data].
  rewrite (get_recognizer_lookup _ _ _ _ Hobj). cbn [mbind outcome_bind].
  unfold call_recognizer_accept_waveform. rewrite Hcall. reflexivity.
Qed.

Lemma int_of_size_t_id (n : nat) :
  Z.of_nat n <= INT_MAX -> int_of_size_t n = Z.of_nat n.
Proof.
  unfold int_of_size_t, INT_MAX. intros Hn.
  rewrite Z.mod_small; lia.
Qed.

Lemma int_of_size_t_range (n : nat) : in_int_range (int_of_size_t n) = true.
Proof.
  unfold in_int_range, int_of_size_t, INT_MIN, INT_MAX.
  pose proof (Z.mod_pos_bound (Z.of_nat n + 2 ^ 31) (2 ^ 32) ltac:(lia)).
  apply andb_true_iff. split; apply Z.leb_le; lia.
Qed.


Lemma int_of_size_t_le (n : nat) : int_of_size_t n <= Z.of_nat n.
Proof.
  unfold int_of_size_t.
  pose proof (Z.mod_le (Z.of_nat n + 2 ^ 31) (2 ^ 32) ltac:(lia) ltac:(lia)).
  lia.
Qed.

Lemma enif_get_int_range (t : ERL_NIF_TERM) (z : Z) :
  enif_get_int t = Some z -> t = Integer z /\ in_int_range z = true.
Proof.
  destruct t; try discriminate. cbn.
  destruct (in_int_range z0) eqn:Hr; [|discriminate].
  intros [= <-]. auto.
Qed.

End EntryPoints.

(** ** Bounds of the marshalled strings *)

Section Bounds.
Context {E : Type} {api : VoskApi E}.
Implicit Types (st : @world E).

(** C2.  In any state, with or without resource objects: a path of 1024
    bytes or more makes [load_model_nif] raise badarg in the state it was
    called in, so no call into the engine is made and nothing is allocated.
    A word of 256 bytes or more does the same to [find_word_nif], whatever
    its first argument.  A path under 1024 bytes passes the check: the
    result is a term and the one call made is [vosk_model_new]; a word
    under 256 bytes, with a model handle, passes the check: the result is
    the integer of the one call made, [vosk_model_find_word]. *)
Theorem marshalling_bounds :
  (forall st (long_path : list byte),
      (length long_path >= 1024)%nat ->
      load_model_nif st [Binary long_path] = Done (st, Badarg))
  /\ (forall st (a0 : ERL_NIF_TERM) (long_word : list byte),
        (length long_word >= 256)%nat ->
        find_word_nif st [a0; Binary long_word] = Done (st, Badarg))
  /\ (forall st (short_path : list byte),
        (length short_path < 1024)%nat ->
        exists st' t,
          load_model_nif st [Binary short_path] = Done (st', Value t)
          /\ calls st'
             = calls st ++ [Call_model_new (terminated_array 1024 short_path)])
  /\ (forall st (obj : nat) (m : ptr) (n : nat) (short_word : list byte),
        heap st !! obj
        = Some {| payload := ModelData {| model := m |}; refc := n |} ->
        (length short_word < 256)%nat ->
        exists st' z,
          find_word_nif st [Resource obj; Binary short_word]
          = Done (st', Value (Integer z))
          /\ calls st'
             = calls st
               ++ [Call_model_find_word m (terminated_array 256 short_word)]).
Proof.
  split; [|split; [|split]].
  - intros st long_path Hlp. apply load_model_nif_too_long. lia.
  - intros st a0 long_word Hlw. apply find_word_nif_too_long. lia.
  - intros st short_path Hsp.
    destruct (vosk_model_new (engine st) (until_nul short_path)) as [e p] eqn:Hnew.
    rewrite (load_model_nif_accepted _ _ _ _ Hsp Hnew).
    destruct (decide (p = NULL)); eauto.
  - intros st obj m n short_word Hobj Hsw.
    destruct (vosk_model_find_word (engine st) m (until_nul short_word))
      as [e z] eqn:Hfind.
    rewrite (find_word_nif_accepted _ _ _ _ _ _ _ Hobj Hsw Hfind). eauto.
Qed.

End Bounds.

(** The two paths in a state without any resource object, the words in a
    state with a model. *)
Lemma marshalling_bounds_witness :
  load_model_nif (api := counting_engine) empty_world
    [Binary (replicate 1024 "a"%byte)] = Done (empty_world, Badarg)
  /\ find_word_nif (api := counting_engine) only_a_model
       [Resource 0; Binary (replicate 256 "a"%byte)] = Done (only_a_model, Badarg)
  /\ (exists st' t,
        load_model_nif (api := counting_engine) empty_world
          [Binary (replicate 1023 "a"%byte)] = Done (st', Value t)
        /\ calls st'
           = calls empty_world
             ++ [Call_model_new (terminated_array 1024 (replicate 1023 "a"%byte))])
  /\ (exists st' z,
        find_word_nif (api := counting_engine) only_a_model
          [Resource 0; Binary (replicate 255 "a"%byte)]
        = Done (st', Value (Integer z))
        /\ calls st'
           = calls only_a_model
             ++ [Call_model_find_word 7
                   (terminated_array 256 (replicate 255 "a"%byte))]).
Proof.
  destruct (marshalling_bounds (api := counting_engine))
    as (H1 & H2 & H3 & H4).
  split; [|split; [|split]].
  - apply H1. rewrite length_replicate. lia.
  - apply H2. rewrite length_replicate. lia.
  - apply H3. rewrite length_replicate. lia.
  - apply (H4 only_a_model 0%nat 7 1%nat);
      [reflexivity | rewrite length_replicate; lia].
Defined.

(** C9.  What the engine is handed for an accepted path or word.  For a
    path under 1024 bytes, in any state, and for a word under 256 bytes
    with a model handle, whatever their bytes are, the call is made and its
    string argument is an array that starts with the input bytes followed
    by one zero byte; the engine reads, and answers for, the input up to
    its first zero byte.  So an input with an interior zero byte is cut
    there, and an input without one arrives whole. *)
Theorem forwarded_c_string {E : Type} {api : VoskApi E} :
  (forall (st : @world E) (path : list byte),
      (length path < 1024)%nat ->
      exists st' t buf,
        load_model_nif st [Binary path] = Done (st', Value t)
        /\ calls st' = calls st ++ [Call_model_new buf]
        /\ take (S (length path)) buf = (Some <$> path) ++ [Some x00]
        /\ c_str buf = Done (until_nul path)
        /\ engine st' = fst (vosk_model_new (engine st) (until_nul path)))
  /\ (forall (st : @world E) (obj : nat) (m : ptr) (n : nat)
             (word : list byte),
        heap st !! obj
        = Some {| payload := ModelData {| model := m |}; refc := n |} ->
        (length word < 256)%nat ->
        exists st' t buf,
          find_word_nif st [Resource obj; Binary word] = Done (st', Value t)
          /\ calls st' = calls st ++ [Call_model_find_word m buf]
          /\ take (S (length word)) buf = (Some <$> word) ++ [Some x00]
          /\ c_str buf = Done (until_nul word)
          /\ engine st'
             = fst (vosk_model_find_word (engine st) m (until_nul word))
          /\ t = Integer (snd (vosk_model_find_word (engine st) m
                                 (until_nul word))))
  /\ (forall pre post : list byte,
        x00 ∉ pre -> until_nul (pre ++ x00 :: post) = pre)
  /\ (forall s : list byte, x00 ∉ s -> until_nul s = s).
Proof.
  split; [|split; [|split]].
  - intros st path Hp.
    destruct (vosk_model_new (engine st) (until_nul path)) as [e p] eqn:Hnew.
    rewrite (load_model_nif_accepted _ _ _ _ Hp Hnew).
    destruct (decide (p = NULL)); do 3 eexists;
      (split; [reflexivity|]); cbn [calls engine enter fst];
      auto using marshalled_prefix, c_str_terminated_array.
  - intros st obj m n word Hobj Hw.
    destruct (vosk_model_find_word (engine st) m (until_nul word))
      as [e z] eqn:Hfind.
    rewrite (find_word_nif_accepted _ _ _ _ _ _ _ Hobj Hw Hfind).
    do 3 eexists. split; [reflexivity|]. cbn [calls engine enter fst snd].
    auto 6 using marshalled_prefix, c_str_terminated_array.
  - apply until_nul_interior.
  - apply until_nul_no_nul.
Qed.

(** On the counting engine: in a state without any resource object the
    path "a", a zero byte, "b" is accepted and read as "a"; the word "hi"
    arrives whole. *)
Lemma forwarded_c_string_witness :
  (exists st' t buf,
      load_model_nif (api := counting_engine) empty_world
        [Binary ["a"; x00; "b"]%byte] = Done (st', Value t)
      /\ calls st' = calls empty_world ++ [Call_model_new buf]
      /\ take 4 buf = [Some "a"; Some x00; Some "b"; Some x00]%byte
      /\ c_str buf = Done ["a"%byte]
      /\ engine st' = 1)
  /\ (exists st' t buf,
        find_word_nif (api := counting_engine) two_handles
          [Resource 0; Binary ["h"; "i"]%byte] = Done (st', Value t)
        /\ calls st' = calls two_handles ++ [Call_model_find_word 7 buf]
        /\ take 3 buf = [Some "h"; Some "i"; Some x00]%byte
        /\ c_str buf = Done ["h"; "i"]%byte
        /\ engine st' = 2
        /\ t = Integer 2).
Proof.
  destruct (forwarded_c_string (api := counting_engine)) as (H1 & H2 & _).
  split.
  - apply (H1 empty_world ["a"; x00; "b"]%byte). cbn. lia.
  - apply (H2 two_handles 0%nat 7 1%nat ["h"; "i"]%byte);
      [reflexivity | cbn; lia].
Defined.

(** ** Handle resolution *)

Section Handles.
Context {E : Type} {api : VoskApi E}.
Implicit Types (st : @world E).

(** C3.  A handle of the wrong type never reaches the engine.  In any
    state that holds a model object, whatever else it holds, each of the
    eight recognizer entry points given a handle to that object raises
    badarg in the state it was called in, whatever the other arguments; in
    any state that holds a recognizer object, so do the two model entry
    points given a handle to it.  The outcome is a defined one, the state
    is unchanged, so no call into the engine was made, and badarg is
    neither of the two tagged failure values. *)
Theorem wrong_handle_type_is_badarg :
  (forall st (mobj : nat) (mres : resource) (rest : list ERL_NIF_TERM),
      heap st !! mobj = Some mres ->
      type_of mres = VoskModel ->
      Forall (fun f : nif => f st (Resource mobj :: rest) = Done (st, Badarg))
        recognizer_operations)
  /\ (forall st (robj : nat) (rres : resource) (rest : list ERL_NIF_TERM),
        heap st !! robj = Some rres ->
        type_of rres = VoskRecognizer ->
        Forall (fun f : nif => f st (Resource robj :: rest) = Done (st, Badarg))
          model_operations)
  /\ Badarg ∉ domain_errors.
Proof.
  split; [|split].
  - intros st mobj mres rest Hm Hmt.
    assert (Hmno : enif_get_resource st (Resource mobj) RECOGNIZER_TYPE = None)
      by (eapply enif_get_resource_other; eauto; rewrite Hmt; discriminate).
    unfold recognizer_operations.
    repeat apply Forall_cons_2; try apply Forall_nil_2;
      unfold set_max_alternatives_nif, set_words_nif, set_partial_words_nif,
        accept_waveform_nif, get_result_nif, get_partial_result_nif,
        get_final_result_nif, reset_recognizer_nif;
      cbn [arg lookup list_lookup mbind outcome_bind];
      rewrite Hmno; reflexivity.
  - intros st robj rres rest Hr Hrt.
    assert (Hrno : enif_get_resource st (Resource robj) MODEL_TYPE = None)
      by (eapply enif_get_resource_other; eauto; rewrite Hrt; discriminate).
    unfold model_operations.
    repeat apply Forall_cons_2; try apply Forall_nil_2;
      unfold find_word_nif, create_recognizer_nif;
      cbn [arg lookup list_lookup mbind outcome_bind];
      rewrite Hrno; reflexivity.
  - unfold domain_errors. intros Hin.
    repeat (apply elem_of_cons in Hin as [Hin|Hin]; [discriminate|]).
    apply elem_of_nil in Hin. exact Hin.
Qed.

End Handles.

(** A model handle in a state without any recognizer, a recognizer handle
    in a state without any model. *)
Lemma wrong_handle_type_is_badarg_witness :
  Forall (fun f : nif =>
            f only_a_model [Resource 0; Binary [x00]]
            = Done (only_a_model, Badarg))
    (recognizer_operations (api := counting_engine))
  /\ Forall (fun f : nif =>
               f only_a_recognizer [Resource 0; Binary [x00]]
               = Done (only_a_recognizer, Badarg))
       (model_operations (api := counting_engine)).
Proof.
  destruct (wrong_handle_type_is_badarg (api := counting_engine))
    as (H1 & H2 & _).
  split.
  - apply (H1 only_a_model 0%nat
             {| payload := ModelData {| model := 7 |}; refc := 1 |});
      reflexivity.
  - apply (H2 only_a_recognizer 0%nat
             {| payload := RecognizerData {| recognizer := 9 |}; refc := 1 |});
      reflexivity.
Defined.

(** ** The narrowing lands in binary32

    [binary_round 24 128] first aligns the mantissa to the exponent binary32
    allows for its magnitude, shifts out the bits that do not fit, rounds,
    and shifts once more if the rounding carried into a 25th bit. *)

Section Binary32.


















End Binary32.

(** ** Construction, ingestion, initialisation *)

Section Construction.
Context {E : Type} {api : VoskApi E}.
Implicit Types (st : @world E).

(** C4.  The two constructors.  [load_model_nif] on an accepted path, in
    any state, the engine answering [model_new] to [vosk_model_new]: a null
    answer gives the term [{error, model_load_failed}] and allocates
    nothing; a non-null answer gives [{ok, Handle}] where the handle names
    an object that did not exist before the call and that holds exactly
    the answered pointer.  [create_recognizer_nif] on a model handle and a
    float, the engine answering [recognizer_new] to [vosk_recognizer_new]:
    the same with [{error, recognizer_creation_failed}].  In each case the
    NIF returns; the failure is a term, not an undefined outcome. *)
Theorem constructor_results :
  (forall st (path : list byte) (e1 : E) (model_new : ptr),
      (length path < 1024)%nat ->
      vosk_model_new (engine st) (until_nul path) = (e1, model_new) ->
      exists st',
        load_model_nif st [Binary path]
        = Done (st',
                if decide (model_new = NULL)
                then Value (Tuple [Atom "error"; Atom "model_load_failed"])
                else Value (Tuple [Atom "ok"; Resource (length (heap st))]))
        /\ engine st' = e1
        /\ (model_new = NULL -> heap st' = heap st)
        /\ (model_new <> NULL ->
            heap st !! length (heap st) = None
            /\ heap st'
               = heap st ++ [ {| payload := ModelData {| model := model_new |};
                                 refc := 1 |} ]
            /\ get_model st' (length (heap st)) = Done model_new))
  /\
  (forall st (obj : nat) (m : ptr) (n : nat) (sample_rate : double) (e2 : E)
          (recognizer_new : ptr),
      heap st !! obj
      = Some {| payload := ModelData {| model := m |}; refc := n |} ->
      vosk_recognizer_new (engine st) m (float_of_double sample_rate)
      = (e2, recognizer_new) ->
      exists st',
        create_recognizer_nif st [Resource obj; Float sample_rate]
        = Done (st',
                if decide (recognizer_new = NULL)
                then Value (Tuple [Atom "error";
                                   Atom "recognizer_creation_failed"])
                else Value (Tuple [Atom "ok"; Resource (length (heap st))]))
        /\ engine st' = e2
        /\ (recognizer_new = NULL -> heap st' = heap st)
        /\ (recognizer_new <> NULL ->
            heap st !! length (heap st) = None
            /\ heap st'
               = heap st
                 ++ [ {| payload := RecognizerData
                                      {| recognizer := recognizer_new |};
                         refc := 1 |} ]
            /\ get_recognizer st' (length (heap st)) = Done recognizer_new)).
Proof.
  split.
  - intros st path e1 model_new Hlt Hm.
    rewrite (load_model_nif_accepted _ _ _ _ Hlt Hm).
    destruct (decide (model_new = NULL)) as [Hnull|Hnonnull].
    + eexists. split; [reflexivity|]. split; [reflexivity|].
      split; [reflexivity|]. intros; contradiction.
    + eexists. split; [reflexivity|]. split; [reflexivity|].
      split; [intros; contradiction|].
      intros _. cbn [heap]. split; [apply lookup_ge_None_2; lia|].
      split; [reflexivity|].
      eapply get_model_lookup. cbn [heap]. apply lookup_new_object.
  - intros st obj m n sample_rate e2 recognizer_new Hobj Hr.
    rewrite (create_recognizer_nif_accepted _ _ _ _ _ _ _ Hobj Hr).
    destruct (decide (recognizer_new = NULL)) as [Hnull|Hnonnull].
    + eexists. split; [reflexivity|]. split; [reflexivity|].
      split; [reflexivity|]. intros; contradiction.
    + eexists. split; [reflexivity|]. split; [reflexivity|].
      split; [intros; contradiction|].
      intros _. cbn [heap]. split; [apply lookup_ge_None_2; lia|].
      split; [reflexivity|].
      eapply get_recognizer_lookup. cbn [heap]. apply lookup_new_object.
Qed.

(** C6.  [accept_waveform_nif] on a recognizer handle and a binary makes
    one call, [vosk_recognizer_accept_waveform] on the recognizer's
    pointer, the bytes of the binary and their count converted to [int],
    and returns the integer the engine answered, whatever it is.  The
    count is the length of the binary whenever that fits an [int]. *)
Theorem accept_waveform_passes_status st (obj : nat) (r : ptr) (n : nat)
  (audio : list byte) (e : E) (status : Z) :
  heap st !! obj
  = Some {| payload := RecognizerData {| recognizer := r |}; refc := n |} ->
  vosk_recognizer_accept_waveform (engine st) r audio
    (int_of_size_t (length audio)) = (e, status) ->
  accept_waveform_nif st [Resource obj; Binary audio]
  = Done ({| heap := heap st;
             engine := e;
             calls := calls st
                      ++ [Call_recognizer_accept_waveform r audio
                            (int_of_size_t (length audio))] |},
          Value (Integer status))
  /\ (Z.of_nat (length audio) <= INT_MAX ->
      int_of_size_t (length audio) = Z.of_nat (length audio)).
Proof.
  intros Hobj Hcall. split.
  - apply (accept_waveform_nif_accepted _ _ _ _ _ _ _ Hobj Hcall).
  - apply int_of_size_t_id.
Qed.


(** C8.  The log level at initialisation.  [load] makes one call,
    [vosk_set_log_level]: with -1 when the load argument is not an integer;
    with the integer itself when it is one that fits an [int]; with -1
    again for an integer that does not.  This holds whatever the runtime
    answers to the two registrations. *)
Theorem load_sets_log_level
  (enif_open_resource_type : string -> option ErlNifResourceType)
  st (load_info : ERL_NIF_TERM) (level huge : Z) :
  (forall z, load_info <> Integer z) ->
  in_int_range level = true ->
  in_int_range huge = false ->
  fst (load enif_open_resource_type st load_info)
  = {| heap := heap st;
       engine := vosk_set_log_level (engine st) (-1);
       calls := calls st ++ [Call_set_log_level (-1)] |}
  /\ fst (load enif_open_resource_type st (Integer level))
     = {| heap := heap st;
          engine := vosk_set_log_level (engine st) level;
          calls := calls st ++ [Call_set_log_level level] |}
  /\ fst (load enif_open_resource_type st (Integer huge))
     = {| heap := heap st;
          engine := vosk_set_log_level (engine st) (-1);
          calls := calls st ++ [Call_set_log_level (-1)] |}.
Proof.
  intros Hni Hlevel Hhuge.
  assert (Hnone : enif_get_int load_info = None).
  { destruct load_info; try reflexivity. exfalso. eapply Hni. reflexivity. }
  unfold load. rewrite Hnone. cbn [enif_get_int]. rewrite Hlevel, Hhuge.
  repeat split;
    match goal with |- context [decide ?P] => destruct (decide P) end;
    reflexivity.
Qed.

(** C7.  The export table has twelve entries.  The entry named
    "accept_waveform" points to [accept_waveform_nif] and carries the
    CPU-bound dirty flag, so the runtime runs it as a job on a dirty CPU
    scheduler; every other entry carries no flag and runs on the scheduler
    thread of the caller. *)
Theorem only_accept_waveform_is_dirty :
  length nif_funcs = 12%nat
  /\ (exists f, f ∈ nif_funcs
                /\ name f = "accept_waveform"%string
                /\ fptr f = accept_waveform_nif
                /\ arity f = 2%nat)
  /\ Forall (fun f =>
               (name f = "accept_waveform"%string ->
                flags f = ERL_NIF_DIRTY_JOB_CPU_BOUND
                /\ scheduled_on f = DirtyCpuScheduler)
               /\ (name f <> "accept_waveform"%string ->
                   flags f = 0 /\ scheduled_on f = CallingScheduler))
       nif_funcs.
Proof.
  split; [reflexivity|]. split.
  - exists {| name := "accept_waveform"; arity := 2;
              fptr := accept_waveform_nif;
              flags := ERL_NIF_DIRTY_JOB_CPU_BOUND |}.
    split; [|repeat split].
    unfold nif_funcs. do 7 apply list_elem_of_further. apply list_elem_of_here.
  - unfold nif_funcs.
    repeat apply Forall_cons_2; try apply Forall_nil_2; cbn [name flags];
      (split; [intros Hn | intros Hn]);
      first [ discriminate Hn
            | exfalso; apply Hn; reflexivity
            | split; reflexivity ].
Qed.

End Construction.

(** The first load of a run, in a state without any resource object, with
    a null and with a non-null answer; then the two answers of a
    creation. *)
Lemma constructor_results_witness :
  (exists st',
      load_model_nif (api := counting_engine) empty_world [Binary []]
      = Done (st', Value (Tuple [Atom "error"; Atom "model_load_failed"]))
      /\ heap st' = [])
  /\ (exists st',
        load_model_nif (api := counting_engine) empty_world [Binary ["m"%byte]]
        = Done (st', Value (Tuple [Atom "ok"; Resource 0]))
        /\ heap st'
           = [ {| payload := ModelData {| model := 1 |}; refc := 1 |} ]
        /\ get_model st' 0 = Done 1)
  /\ (exists st',
        create_recognizer_nif (api := counting_engine) two_handles
          [Resource 0; Float minus_sixteen_khz]
        = Done (st', Value (Tuple [Atom "error"; Atom "recognizer_creation_failed"]))
        /\ heap st' = heap two_handles)
  /\ (exists st',
        create_recognizer_nif (api := counting_engine) two_handles
          [Resource 0; Float sixteen_khz]
        = Done (st', Value (Tuple [Atom "ok"; Resource 2]))
        /\ heap two_handles !! 2%nat = None
        /\ get_recognizer st' 2 = Done 3).
Proof.
  destruct (constructor_results (api := counting_engine)) as [Hload Hcreate].
  destruct (Hload empty_world [] 0 NULL ltac:(cbn; lia) eq_refl)
    as (s1 & H1 & _ & N1 & _).
  destruct (Hload empty_world ["m"%byte] 1 1 ltac:(cbn; lia) eq_refl)
    as (s2 & H2 & _ & _ & N2).
  destruct (Hcreate two_handles 0%nat 7 1%nat minus_sixteen_khz 2 NULL
              eq_refl eq_refl) as (s3 & H3 & _ & N3 & _).
  destruct (Hcreate two_handles 0%nat 7 1%nat sixteen_khz 3 3
              eq_refl eq_refl) as (s4 & H4 & _ & _ & N4).
  destruct (N2 ltac:(discriminate)) as (_ & F2 & G2).
  destruct (N4 ltac:(discriminate)) as (F4 & _ & G4).
  split; [exists s1; split; [exact H1 | exact (N1 eq_refl)]|].
  split; [exists s2; split; [exact H2 | split; [exact F2 | exact G2]]|].
  split; [exists s3; split; [exact H3 | exact (N3 eq_refl)]|].
  exists s4; split; [exact H4 | split; [exact F4 | exact G4]].
Defined.

Lemma accept_waveform_passes_status_witness :
  accept_waveform_nif (api := counting_engine) two_handles
    [Resource 1; Binary [x00; x00; x00]]
  = Done ({| heap := heap two_handles;
             engine := 2;
             calls := [Call_recognizer_accept_waveform 9 [x00; x00; x00] 3] |},
          Value (Integer 1)).
Proof.
  exact (proj1 (accept_waveform_passes_status (api := counting_engine)
                  two_handles 1%nat 9 1%nat [x00; x00; x00] 2 1
                  eq_refl eq_refl)).
Defined.


Lemma load_sets_log_level_witness :
  fst (load (api := counting_engine) registers_both empty_world
         (Atom "undefined"))
  = {| heap := []; engine := 0; calls := [Call_set_log_level (-1)] |}
  /\ fst (load (api := counting_engine) registers_both empty_world
            (Integer 0))
     = {| heap := []; engine := 0; calls := [Call_set_log_level 0] |}
  /\ fst (load (api := counting_engine) registers_both empty_world
            (Integer (2 ^ 31)))
     = {| heap := []; engine := 0; calls := [Call_set_log_level (-1)] |}.
Proof.
  exact (load_sets_log_level (api := counting_engine)
           registers_both empty_world (Atom "undefined") 0 (2 ^ 31)
           ltac:(discriminate) eq_refl eq_refl).
Defined.

(** ** Every entry point returns *)

Section Safety.
Context {E : Type} {api : VoskApi E}.
Implicit Types (st : @world E) (argv : list ERL_NIF_TERM).

Lemma safe_badarg st : safe_outcome st (Done (st, Badarg)).
Proof.
  exists st, Badarg. split; [reflexivity|]. split; [reflexivity|].
  split; [reflexivity|]. left. reflexivity.
Qed.

Lemma safe_call st (h : list resource) (e : E) (c : native_call)
  (v : ERL_NIF_TERM) :
  exposed_result (Value v) = true ->
  checked_call (heap st) c = true ->
  safe_outcome st
    (Done ({| heap := h; engine := e; calls := calls st ++ [c] |}, Value v)).
Proof.
  intros Hv Hc. do 2 eexists. split; [reflexivity|]. split; [exact Hv|].
  split; [discriminate|]. right. exists c. split; [reflexivity | exact Hc].
Qed.

Lemma resolved_model_object st (t : ERL_NIF_TERM) (obj : nat) :
  enif_get_resource st t MODEL_TYPE = Some obj ->
  exists m n,
    t = Resource obj
    /\ heap st !! obj
       = Some {| payload := ModelData {| model := m |}; refc := n |}
    /\ holds_model (heap st) m = true.
Proof.
  intros H. destruct (resolved_model _ _ _ H) as (m & Hget & Hh).
  apply enif_get_resource_Some in H as (r & -> & Hr & Hty).
  destruct r as [[[m']|[q]] n]; [|discriminate].
  unfold get_model in Hget. rewrite Hr in Hget. injection Hget as <-.
  eauto.
Qed.

Ltac args argv Hlen :=
  destruct argv as [|a0 [|a1 [|? ?]]]; try discriminate Hlen;
  cbn [arg lookup list_lookup mbind outcome_bind].

Ltac resolve_recognizer st :=
  match goal with
  | |- context [enif_get_resource st ?t RECOGNIZER_TYPE] =>
      let H := fresh "Hres" in
      destruct (enif_get_resource st t RECOGNIZER_TYPE) eqn:H;
      [ let r := fresh "r" in
        let Hr := fresh "Hr" in
        let Hh := fresh "Hh" in
        destruct (resolved_recognizer _ _ _ H) as (r & Hr & Hh)
      | apply safe_badarg ]
  end;
  cbn [arg lookup list_lookup mbind outcome_bind].

Ltac get_int :=
  match goal with
  | |- context [enif_get_int ?t] =>
      let H := fresh "Hint" in
      destruct (enif_get_int t) eqn:H;
      [ apply enif_get_int_range in H as [_ H] | apply safe_badarg ]
  end.

Ltac checked :=
  cbn [checked_call];
  repeat match goal with
         | H : _ = true |- _ => rewrite H
         end;
  reflexivity.

Lemma set_log_level_nif_safe st argv :
  length argv = 1%nat -> safe_outcome st (set_log_level_nif st argv).
Proof.
  intros Hlen. unfold set_log_level_nif. args argv Hlen. get_int.
  apply safe_call; [reflexivity | checked].
Qed.

Lemma load_model_nif_safe st argv :
  length argv = 1%nat -> safe_outcome st (load_model_nif st argv).
Proof.
  intros Hlen. args argv Hlen.
  destruct (enif_inspect_binary a0) as [bin|] eqn:Hbin.
  - destruct a0; try discriminate Hbin.
    destruct (decide (length b < 1024)%nat) as [Hlt|Hge].
    + destruct (vosk_model_new (engine st) (until_nul b)) as [e' m] eqn:Hnew.
      rewrite (load_model_nif_accepted _ _ _ _ Hlt Hnew).
      destruct (decide (m = NULL));
        (apply safe_call;
         [reflexivity | cbn [checked_call]; rewrite c_str_terminated_array;
                        reflexivity]).
    + rewrite load_model_nif_too_long by lia. apply safe_badarg.
  - unfold load_model_nif.
    cbn [arg lookup list_lookup mbind outcome_bind]. rewrite Hbin.
    apply safe_badarg.
Qed.

Lemma find_word_nif_safe st argv :
  length argv = 2%nat -> safe_outcome st (find_word_nif st argv).
Proof.
  intros Hlen. args argv Hlen.
  destruct (enif_get_resource st a0 MODEL_TYPE) as [obj|] eqn:Hres.
  - destruct (resolved_model_object _ _ _ Hres) as (m & n & -> & Hobj & Hh).
    destruct (enif_inspect_binary a1) as [bin|] eqn:Hbin.
    + destruct a1; try discriminate Hbin.
      destruct (decide (length b < 256)%nat) as [Hlt|Hge].
      * destruct (vosk_model_find_word (engine st) m (until_nul b))
          as [e' z] eqn:Hfind.
        rewrite (find_word_nif_accepted _ _ _ _ _ _ _ Hobj Hlt Hfind).
        apply safe_call;
          [reflexivity | cbn [checked_call]; rewrite Hh, c_str_terminated_array;
                         reflexivity].
      * rewrite find_word_nif_too_long by lia. apply safe_badarg.
    + unfold find_word_nif.
      cbn [arg lookup list_lookup mbind outcome_bind]. rewrite Hres.
      cbn [arg lookup list_lookup mbind outcome_bind]. rewrite Hbin.
      apply safe_badarg.
  - unfold find_word_nif.
    cbn [arg lookup list_lookup mbind outcome_bind]. rewrite Hres.
    apply safe_badarg.
Qed.

Lemma create_recognizer_nif_safe st argv :
  length argv = 2%nat -> safe_outcome st (create_recognizer_nif st argv).
Proof.
  intros Hlen. args argv Hlen.
  destruct (enif_get_resource st a0 MODEL_TYPE) as [obj|] eqn:Hres.
  - destruct (resolved_model_object _ _ _ Hres) as (m & n & -> & Hobj & Hh).
    destruct (enif_get_double a1) as [d|] eqn:Hd.
    + destruct a1; try discriminate Hd. injection Hd as ->.
      destruct (vosk_recognizer_new (engine st) m (float_of_double d))
        as [e' r] eqn:Hnew.
      rewrite (create_recognizer_nif_accepted _ _ _ _ _ _ _ Hobj Hnew).
      destruct (decide (r = NULL));
        (apply safe_call; [reflexivity | cbn [checked_call]; exact Hh]).
    + rewrite create_recognizer_nif_not_float by assumption. apply safe_badarg.
  - unfold create_recognizer_nif.
    cbn [arg lookup list_lookup mbind outcome_bind]. rewrite Hres.
    apply safe_badarg.
Qed.

Lemma set_max_alternatives_nif_safe st argv :
  length argv = 2%nat -> safe_outcome st (set_max_alternatives_nif st argv).
Proof.
  intros Hlen. unfold set_max_alternatives_nif. args argv Hlen.
  resolve_recognizer st. get_int. rewrite Hr.
  apply safe_call; [reflexivity | checked].
Qed.

Lemma set_words_nif_safe st argv :
  length argv = 2%nat -> safe_outcome st (set_words_nif st argv).
Proof.
  intros Hlen. unfold set_words_nif. args argv Hlen.
  resolve_recognizer st. get_int. rewrite Hr.
  apply safe_call; [reflexivity | checked].
Qed.

Lemma set_partial_words_nif_safe st argv :
  length argv = 2%nat -> safe_outcome st (set_partial_words_nif st argv).
Proof.
  intros Hlen. unfold set_partial_words_nif. args argv Hlen.
  resolve_recognizer st. get_int. rewrite Hr.
  apply safe_call; [reflexivity | checked].
Qed.

Lemma accept_waveform_nif_safe st argv :
  length argv = 2%nat -> safe_outcome st (accept_waveform_nif st argv).
Proof.
  intros Hlen. unfold accept_waveform_nif. args argv Hlen.
  resolve_recognizer st.
  destruct a1; try apply safe_badarg. cbn [enif_inspect_binary size data].
  rewrite Hr. cbn [mbind outcome_bind]. unfold call_recognizer_accept_waveform.
  destruct (vosk_recognizer_accept_waveform _ _ _ _) as [e' code].
  apply safe_call;
    [reflexivity|].
  cbn [checked_call].
  rewrite Hh, int_of_size_t_range. cbn [andb].
  apply andb_true_iff. split; [apply Z.leb_le, int_of_size_t_le|].
  destruct (Z.of_nat (length b) <=? INT_MAX) eqn:Hfit; [|reflexivity].
  apply Z.leb_le in Hfit. cbn [implb].
  apply Z.eqb_eq, int_of_size_t_id, Hfit.
Qed.

Lemma get_result_nif_safe st argv :
  length argv = 1%nat -> safe_outcome st (get_result_nif st argv).
Proof.
  intros Hlen. unfold get_result_nif. args argv Hlen.
  resolve_recognizer st. rewrite Hr. cbn [mbind outcome_bind].
  unfold call_recognizer_result.
  destruct (vosk_recognizer_result _ _) as [e' s].
  apply safe_call; [reflexivity | checked].
Qed.

Lemma get_partial_result_nif_safe st argv :
  length argv = 1%nat -> safe_outcome st (get_partial_result_nif st argv).
Proof.
  intros Hlen. unfold get_partial_result_nif. args argv Hlen.
  resolve_recognizer st. rewrite Hr. cbn [mbind outcome_bind].
  unfold call_recognizer_partial_result.
  destruct (vosk_recognizer_partial_result _ _) as [e' s].
  apply safe_call; [reflexivity | checked].
Qed.

Lemma get_final_result_nif_safe st argv :
  length argv = 1%nat -> safe_outcome st (get_final_result_nif st argv).
Proof.
  intros Hlen. unfold get_final_result_nif. args argv Hlen.
  resolve_recognizer st. rewrite Hr. cbn [mbind outcome_bind].
  unfold call_recognizer_final_result.
  destruct (vosk_recognizer_final_result _ _) as [e' s].
  apply safe_call; [reflexivity | checked].
Qed.

Lemma reset_recognizer_nif_safe st argv :
  length argv = 1%nat -> safe_outcome st (reset_recognizer_nif st argv).
Proof.
  intros Hlen. unfold reset_recognizer_nif. args argv Hlen.
  resolve_recognizer st. rewrite Hr.
  apply safe_call; [reflexivity | checked].
Qed.

Lemma nif_funcs_safe :
  Forall (fun f => forall st argv,
              length argv = arity f -> safe_outcome st (fptr f st argv))
    nif_funcs.
Proof.
  unfold nif_funcs.
  repeat apply Forall_cons_2; try apply Forall_nil_2; cbn [arity fptr];
    auto using set_log_level_nif_safe, load_model_nif_safe, find_word_nif_safe,
      create_recognizer_nif_safe, set_max_alternatives_nif_safe,
      set_words_nif_safe, set_partial_words_nif_safe, accept_waveform_nif_safe,
      get_result_nif_safe, get_partial_result_nif_safe,
      get_final_result_nif_safe, reset_recognizer_nif_safe.
Qed.

(** The same through the runtime's dispatch: a call that reaches the C code
    at all has a safe outcome. *)
Lemma apply_nif_safe (fname : string) st argv
  (o : outcome (@world E * nif_result)) :
  apply_nif fname st argv = Some o -> safe_outcome st o.
Proof.
  unfold apply_nif.
  destruct (find _ nif_funcs) as [f|] eqn:Hfind; [|discriminate].
  intros [= <-]. apply find_some in Hfind as [Hin Hmatch].
  apply andb_true_iff in Hmatch as [_ Harity]. apply Nat.eqb_eq in Harity.
  apply list_elem_of_In in Hin.
  exact (proj1 (Forall_forall _ _) nif_funcs_safe f Hin st argv (eq_sym Harity)).
Qed.


End Safety.




(** ** More on marshalling *)

Section MarshallingMore.

Lemma until_nul_prefix (s : list byte) : until_nul s `prefix_of` s.
Proof.
  induction s as [|c s IH]; [reflexivity|]. cbn [until_nul].
  destruct (Byte.eqb c x00); [apply prefix_nil|].
  apply prefix_cons, IH.
Qed.

Lemma until_nul_free (s : list byte) : x00 ∉ until_nul s.
Proof.
  induction s as [|c s IH]; cbn [until_nul]; [apply not_elem_of_nil|].
  destruct (Byte.eqb c x00) eqn:Hc; [apply not_elem_of_nil|].
  apply not_elem_of_cons. split; [|exact IH].
  apply not_eq_sym, Byte.eqb_false, Hc.
Qed.

(** X1.  Marshalling a string and reading it back as the callee does.  For
    any array size [n] and any input shorter than [n], the array handed to
    the engine has exactly [n] cells, and what the callee reads from it is
    a prefix of the input that holds no zero byte; reading such a string
    again changes nothing, and the input arrives whole exactly when it has
    no zero byte. *)
Theorem marshalled_string_read_back (n : nat) (s : list byte) :
  (length s < n)%nat ->
  copy_terminate_read n s = Done (until_nul s)
  /\ length (terminated_array n s) = n
  /\ (until_nul s `prefix_of` s)
  /\ (x00 ∉ until_nul s)
  /\ until_nul (until_nul s) = until_nul s
  /\ (until_nul s = s <-> x00 ∉ s).
Proof.
  intros Hlt. split; [|split; [|split; [|split; [|split]]]].
  - unfold copy_terminate_read.
    rewrite memcpy_char_array by assumption. cbn [mbind outcome_bind].
    rewrite store_terminator by assumption. cbn [mbind outcome_bind].
    apply c_str_terminated_array.
  - apply marshalled_length, Hlt.
  - apply until_nul_prefix.
  - apply until_nul_free.
  - apply until_nul_no_nul, until_nul_free.
  - split.
    + intros Heq. rewrite <- Heq. apply until_nul_free.
    + apply until_nul_no_nul.
Qed.

End MarshallingMore.

Lemma marshalled_string_read_back_witness :
  copy_terminate_read 8 ["a"; x00; "b"]%byte = Done ["a"%byte]
  /\ length (terminated_array 8 ["a"; x00; "b"]%byte) = 8%nat.
Proof.
  destruct (marshalled_string_read_back 8 ["a"; x00; "b"]%byte
              ltac:(cbn; lia)) as (H1 & H2 & _).
  split; [exact H1 | exact H2].
Defined.

(** ** The narrowing of the sample rate *)

Section Narrowing.

Lemma shr_1_nonneg (mrs : shr_record) :
  0 <= shr_m mrs -> 0 <= shr_m (shr_1 mrs).
Proof.
  destruct mrs as [m r s]. cbn [shr_m]. intros Hm.
  destruct m as [|p|p]; [cbn; lia | | lia].
  destruct p; cbn; lia.
Qed.

Lemma iter_pos_shr_1_nonneg (p : positive) (mrs : shr_record) :
  0 <= shr_m mrs -> 0 <= shr_m (SpecFloat.iter_pos shr_1 p mrs).
Proof.
  revert mrs.
  induction p as [p IH|p IH|]; intros mrs Hm; cbn [SpecFloat.iter_pos];
    auto using shr_1_nonneg.
Qed.

Lemma shr_fexp_nonneg (prec emax m e : Z) (l : location) :
  0 <= m -> 0 <= shr_m (fst (shr_fexp prec emax m e l)).
Proof.
  intros Hm. unfold shr_fexp, shr.
  assert (H0 : 0 <= shr_m (shr_record_of_loc m l))
    by (destruct l as [|[]]; exact Hm).
  destruct (fexp prec emax (Zdigits2 m + e) - e); cbn [fst];
    auto using iter_pos_shr_1_nonneg.
Qed.

Lemma round_nearest_even_nonneg (m : Z) (l : location) :
  0 <= m -> 0 <= round_nearest_even m l.
Proof.
  intros Hm. destruct l as [|[]]; cbn [round_nearest_even]; try lia.
  destruct (Z.even m); lia.
Qed.

Lemma binary_round_aux_sign (prec emax : Z) (s : bool) (m e : Z)
  (l : location) :
  0 <= m ->
  binary_round_aux prec emax s m e l = S754_zero s
  \/ binary_round_aux prec emax s m e l = S754_infinity s
  \/ exists m' e', binary_round_aux prec emax s m e l = S754_finite s m' e'.
Proof.
  intros Hm. unfold binary_round_aux.
  pose proof (shr_fexp_nonneg prec emax m e l Hm) as H1.
  destruct (shr_fexp prec emax m e l) as [mrs' e'].
  cbn [fst] in H1.
  pose proof (shr_fexp_nonneg prec emax _ e' loc_Exact
                (round_nearest_even_nonneg _ (loc_of_shr_record mrs') H1))
    as H2.
  destruct (shr_fexp prec emax _ e' loc_Exact) as [mrs'' e''].
  cbn [fst] in H2.
  destruct (shr_m mrs'') as [|p|p]; [auto| |lia].
  destruct (e'' <=? emax - prec); eauto.
Qed.

(** X3.  The cast of the sample rate to [float] keeps the sign and makes
    no NaN: a finite double becomes a zero, a finite float or an infinity
    of the same sign; zeros, infinities and NaN pass as they are. *)
Theorem float_of_double_keeps_sign (d : double) :
  match d with
  | S754_finite s _ _ =>
      float_of_double d = S754_zero s
      \/ float_of_double d = S754_infinity s
      \/ exists m' e', float_of_double d = S754_finite s m' e'
  | _ => float_of_double d = d
  end
  /\ (d <> S754_nan -> float_of_double d <> S754_nan).
Proof.
  assert (Hfin : forall s m e,
             float_of_double (S754_finite s m e) = S754_zero s
             \/ float_of_double (S754_finite s m e) = S754_infinity s
             \/ exists m' e',
                 float_of_double (S754_finite s m e) = S754_finite s m' e').
  { intros s m e. cbn [float_of_double]. unfold binary_round.
    destruct (shl_align _ _ _) as [mz ez].
    apply binary_round_aux_sign. lia. }
  split.
  - destruct d; try reflexivity. apply Hfin.
  - intros Hd. destruct d as [s|s| |s m e]; try discriminate; try contradiction.
    destruct (Hfin s m e) as [H|[H|(m' & e' & H)]]; rewrite H; discriminate.
Qed.

End Narrowing.

(** ** Configuration, results and initialisation *)

Section Configuration.
Context {E : Type} {api : VoskApi E}.
Implicit Types (st : @world E) (obj : nat) (r : ptr).

Lemma enif_get_int_None (t : ERL_NIF_TERM) :
  (forall z, t = Integer z -> in_int_range z = false) ->
  enif_get_int t = None.
Proof.
  intros H. destruct t; try reflexivity. cbn [enif_get_int].
  rewrite (H z eq_refl). reflexivity.
Qed.

(** The common shape of the three setters and of [reset_recognizer_nif]:
    resolve, read the field, call, return [ok]. *)
Ltac run_on_recognizer Hobj :=
  cbn [arg lookup list_lookup mbind outcome_bind];
  rewrite ?(enif_get_resource_recognizer _ _ _ _ Hobj);
  cbn [arg lookup list_lookup mbind outcome_bind enif_get_int];
  rewrite ?(get_recognizer_lookup _ _ _ _ Hobj);
  cbn [mbind outcome_bind].

Lemma setter_rejects st (a0 a1 : ERL_NIF_TERM) :
  enif_get_int a1 = None ->
  set_max_alternatives_nif st [a0; a1] = Done (st, Badarg)
  /\ set_words_nif st [a0; a1] = Done (st, Badarg)
  /\ set_partial_words_nif st [a0; a1] = Done (st, Badarg).
Proof.
  intros Hint.
  unfold set_max_alternatives_nif, set_words_nif, set_partial_words_nif.
  cbn [arg lookup list_lookup mbind outcome_bind].
  destruct (enif_get_resource st a0 RECOGNIZER_TYPE); [|auto].
  cbn [arg lookup list_lookup mbind outcome_bind]. rewrite Hint. auto.
Qed.

(** X4.  [set_log_level_nif] takes an integer that fits an [int] and
    nothing else.  Such an integer is passed to [vosk_set_log_level] in one
    call and [ok] comes back, the resource objects untouched; an integer
    outside the range, 2^31 or -2^31-1 for instance, is refused with badarg
    rather than truncated, and so is every term that is not an integer. *)
Theorem set_log_level_nif_cases st (level : Z) (other : ERL_NIF_TERM) :
  in_int_range level = true ->
  (forall z, other = Integer z -> in_int_range z = false) ->
  set_log_level_nif st [Integer level]
  = Done ({| heap := heap st;
             engine := vosk_set_log_level (engine st) level;
             calls := calls st ++ [Call_set_log_level level] |},
          Value (Atom "ok"))
  /\ set_log_level_nif st [other] = Done (st, Badarg)
  /\ set_log_level_nif st [Integer (2 ^ 31)] = Done (st, Badarg)
  /\ set_log_level_nif st [Integer (- 2 ^ 31 - 1)] = Done (st, Badarg).
Proof.
  intros Hlevel Hother. unfold set_log_level_nif.
  cbn [arg lookup list_lookup mbind outcome_bind enif_get_int].
  rewrite Hlevel, (enif_get_int_None _ Hother). repeat split.
Qed.

(** X5.  The three setters on a recognizer handle.  With an integer that
    fits an [int] each makes one call, to its own engine function, on the
    pointer stored in the object and that integer, returns [ok] and leaves
    the resource objects as they were.  With a second argument that is not
    such an integer each raises badarg in the state it was called in,
    whatever the first argument. *)
Theorem setters_pass_their_argument st obj r (n : nat) (value : Z)
  (a0 other : ERL_NIF_TERM) :
  heap st !! obj
  = Some {| payload := RecognizerData {| recognizer := r |}; refc := n |} ->
  in_int_range value = true ->
  (forall z, other = Integer z -> in_int_range z = false) ->
  set_max_alternatives_nif st [Resource obj; Integer value]
  = Done ({| heap := heap st;
             engine := vosk_recognizer_set_max_alternatives (engine st) r value;
             calls := calls st
                      ++ [Call_recognizer_set_max_alternatives r value] |},
          Value (Atom "ok"))
  /\ set_words_nif st [Resource obj; Integer value]
     = Done ({| heap := heap st;
                engine := vosk_recognizer_set_words (engine st) r value;
                calls := calls st ++ [Call_recognizer_set_words r value] |},
             Value (Atom "ok"))
  /\ set_partial_words_nif st [Resource obj; Integer value]
     = Done ({| heap := heap st;
                engine := vosk_recognizer_set_partial_words (engine st) r value;
                calls := calls st
                         ++ [Call_recognizer_set_partial_words r value] |},
             Value (Atom "ok"))
  /\ set_max_alternatives_nif st [a0; other] = Done (st, Badarg)
  /\ set_words_nif st [a0; other] = Done (st, Badarg)
  /\ set_partial_words_nif st [a0; other] = Done (st, Badarg).
Proof.
  intros Hobj Hvalue Hother.
  split; [|split; [|split]].
  - unfold set_max_alternatives_nif. run_on_recognizer Hobj.
    rewrite Hvalue. run_on_recognizer Hobj. reflexivity.
  - unfold set_words_nif. run_on_recognizer Hobj.
    rewrite Hvalue. run_on_recognizer Hobj. reflexivity.
  - unfold set_partial_words_nif. run_on_recognizer Hobj.
    rewrite Hvalue. run_on_recognizer Hobj. reflexivity.
  - apply setter_rejects, enif_get_int_None, Hother.
Qed.

(** X6.  The four one-argument operations on a recognizer handle.  Each of
    the three result getters makes one call, to its own engine function, on
    the pointer stored in the object, and returns the string the engine
    answered as a character list read as UTF-8; [reset_recognizer_nif]
    calls [vosk_recognizer_reset] on that pointer and returns [ok].  None
    of them touches the resource objects. *)
Theorem recognizer_queries st obj r (n : nat) :
  heap st !! obj
  = Some {| payload := RecognizerData {| recognizer := r |}; refc := n |} ->
  get_result_nif st [Resource obj]
  = Done ({| heap := heap st;
             engine := fst (vosk_recognizer_result (engine st) r);
             calls := calls st ++ [Call_recognizer_result r] |},
          Value (CharList ERL_NIF_UTF8
                   (snd (vosk_recognizer_result (engine st) r))))
  /\ get_partial_result_nif st [Resource obj]
     = Done ({| heap := heap st;
                engine := fst (vosk_recognizer_partial_result (engine st) r);
                calls := calls st ++ [Call_recognizer_partial_result r] |},
             Value (CharList ERL_NIF_UTF8
                      (snd (vosk_recognizer_partial_result (engine st) r))))
  /\ get_final_result_nif st [Resource obj]
     = Done ({| heap := heap st;
                engine := fst (vosk_recognizer_final_result (engine st) r);
                calls := calls st ++ [Call_recognizer_final_result r] |},
             Value (CharList ERL_NIF_UTF8
                      (snd (vosk_recognizer_final_result (engine st) r))))
  /\ reset_recognizer_nif st [Resource obj]
     = Done ({| heap := heap st;
                engine := vosk_recognizer_reset (engine st) r;
                calls := calls st ++ [Call_recognizer_reset r] |},
             Value (Atom "ok")).
Proof.
  intros Hobj. split; [|split; [|split]].
  - unfold get_result_nif. run_on_recognizer Hobj.
    unfold call_recognizer_result.
    destruct (vosk_recognizer_result (engine st) r). reflexivity.
  - unfold get_partial_result_nif. run_on_recognizer Hobj.
    unfold call_recognizer_partial_result.
    destruct (vosk_recognizer_partial_result (engine st) r). reflexivity.
  - unfold get_final_result_nif. run_on_recognizer Hobj.
    unfold call_recognizer_final_result.
    destruct (vosk_recognizer_final_result (engine st) r). reflexivity.
  - unfold reset_recognizer_nif. run_on_recognizer Hobj. reflexivity.
Qed.

(** X7.  What [load] reports.  It returns 0 exactly when the runtime
    registered both resource types, and 1 otherwise.  Either way the log
    level has been set by then, in the one call [load] makes, and no
    resource object was touched. *)
Theorem load_return_code
  (enif_open_resource_type : string -> option ErlNifResourceType)
  st (load_info : ERL_NIF_TERM) :
  (snd (load enif_open_resource_type st load_info) = 0
   <-> enif_open_resource_type "VoskModel"%string <> None
       /\ enif_open_resource_type "VoskRecognizer"%string <> None)
  /\ (snd (load enif_open_resource_type st load_info) = 1
      <-> enif_open_resource_type "VoskModel"%string = None
          \/ enif_open_resource_type "VoskRecognizer"%string = None)
  /\ heap (fst (load enif_open_resource_type st load_info)) = heap st
  /\ exists level,
       in_int_range level = true
       /\ calls (fst (load enif_open_resource_type st load_info))
          = calls st ++ [Call_set_log_level level].
Proof.
  unfold load.
  destruct (decide (enif_open_resource_type "VoskModel"%string = None
                    \/ enif_open_resource_type "VoskRecognizer"%string = None))
    as [Hnone|Hboth]; cbn [fst snd call_set_log_level enter heap calls].
  - split; [split; [discriminate | tauto]|].
    split; [tauto|]. split; [reflexivity|].
    destruct (enif_get_int load_info) as [v|] eqn:Hint; eexists;
      (split; [|reflexivity]);
      [apply enif_get_int_range in Hint as [_ Hint]; exact Hint | reflexivity].
  - split; [split; [tauto | reflexivity]|].
    split; [split; [discriminate | tauto]|]. split; [reflexivity|].
    destruct (enif_get_int load_info) as [v|] eqn:Hint; eexists;
      (split; [|reflexivity]);
      [apply enif_get_int_range in Hint as [_ Hint]; exact Hint | reflexivity].
Qed.

End Configuration.

Lemma set_log_level_nif_cases_witness :
  set_log_level_nif (api := counting_engine) two_handles [Integer (-1)]
  = Done ({| heap := heap two_handles; engine := 2;
             calls := [Call_set_log_level (-1)] |},
          Value (Atom "ok"))
  /\ set_log_level_nif (api := counting_engine) two_handles [Float one_tenth]
     = Done (two_handles, Badarg).
Proof.
  destruct (set_log_level_nif_cases (api := counting_engine) two_handles
              (-1) (Float one_tenth) eq_refl ltac:(discriminate))
    as (H1 & H2 & _).
  split; [exact H1 | exact H2].
Defined.

Lemma setters_pass_their_argument_witness :
  set_words_nif (api := counting_engine) two_handles [Resource 1; Integer 1]
  = Done ({| heap := heap two_handles; engine := 2;
             calls := [Call_recognizer_set_words 9 1] |},
          Value (Atom "ok"))
  /\ set_words_nif (api := counting_engine) two_handles
       [Resource 1; Atom "true"] = Done (two_handles, Badarg).
Proof.
  destruct (setters_pass_their_argument (api := counting_engine) two_handles
              1%nat 9 1%nat 1 (Resource 1) (Atom "true")
              eq_refl eq_refl ltac:(discriminate))
    as (_ & H2 & _ & _ & H5 & _).
  split; [exact H2 | exact H5].
Defined.

Lemma recognizer_queries_witness :
  get_partial_result_nif (api := counting_engine) two_handles [Resource 1]
  = Done ({| heap := heap two_handles; engine := 2;
             calls := [Call_recognizer_partial_result 9] |},
          Value (CharList ERL_NIF_UTF8 json_empty)).
Proof.
  exact (proj1 (proj2 (recognizer_queries (api := counting_engine)
                         two_handles 1%nat 9 1%nat eq_refl))).
Defined.

(** ** What a NIF call does to the resource objects *)

Section Invariants.
Context {E : Type} {api : VoskApi E}.
Implicit Types (st : @world E) (argv : list ERL_NIF_TERM).

Lemma step_keep st (st' : @world E) (r : nif_result) :
  heap st' = heap st -> nif_step st (Done (st', r)).
Proof. intros H. exists st', r. auto. Qed.

Lemma step_wrap st (e : E) (cs : list native_call) (x : resource) :
  refc x = 1%nat ->
  pointer_of x <> NULL ->
  nif_step st
    (Done ({| heap := heap st ++ [x]; engine := e; calls := cs |},
           Value (Tuple [Atom "ok"; Resource (length (heap st))]))).
Proof.
  intros Hrefc Hptr. do 2 eexists. split; [reflexivity|]. right.
  exists x. cbn [heap]. auto.
Qed.

Ltac args argv Hlen :=
  destruct argv as [|a0 [|a1 [|? ?]]]; try discriminate Hlen;
  cbn [arg lookup list_lookup mbind outcome_bind].

Ltac keep := apply step_keep; reflexivity.

Ltac on_recognizer st :=
  match goal with
  | |- context [enif_get_resource st ?t RECOGNIZER_TYPE] =>
      let H := fresh "Hres" in
      destruct (enif_get_resource st t RECOGNIZER_TYPE) eqn:H;
      [ let r := fresh "r" in
        let Hr := fresh "Hr" in
        destruct (resolved_recognizer _ _ _ H) as (r & Hr & _)
      | keep ]
  end;
  cbn [arg lookup list_lookup mbind outcome_bind].

Lemma set_log_level_nif_step st argv :
  length argv = 1%nat -> nif_step st (set_log_level_nif st argv).
Proof.
  intros Hlen. unfold set_log_level_nif. args argv Hlen.
  destruct (enif_get_int a0); keep.
Qed.

Lemma load_model_nif_step st argv :
  length argv = 1%nat -> nif_step st (load_model_nif st argv).
Proof.
  intros Hlen. args argv Hlen.
  destruct (enif_inspect_binary a0) as [bin|] eqn:Hbin.
  - destruct a0; try discriminate Hbin.
    destruct (decide (length b < 1024)%nat) as [Hlt|Hge].
    + destruct (vosk_model_new (engine st) (until_nul b)) as [e' m] eqn:Hnew.
      rewrite (load_model_nif_accepted _ _ _ _ Hlt Hnew).
      destruct (decide (m = NULL)); [keep|].
      apply step_wrap; [reflexivity | assumption].
    + rewrite load_model_nif_too_long by lia. keep.
  - unfold load_model_nif.
    cbn [arg lookup list_lookup mbind outcome_bind]. rewrite Hbin. keep.
Qed.

Lemma find_word_nif_step st argv :
  length argv = 2%nat -> nif_step st (find_word_nif st argv).
Proof.
  intros Hlen. args argv Hlen.
  destruct (enif_get_resource st a0 MODEL_TYPE) as [obj|] eqn:Hres.
  - destruct (resolved_model _ _ _ Hres) as (m & Hm & _).
    apply enif_get_resource_Some in Hres as (x & -> & Hx & Hty).
    destruct x as [[[m']|[q]] n]; [|discriminate].
    destruct (enif_inspect_binary a1) as [bin|] eqn:Hbin.
    + destruct a1; try discriminate Hbin.
      destruct (decide (length b < 256)%nat) as [Hlt|Hge].
      * destruct (vosk_model_find_word (engine st) m' (until_nul b))
          as [e' z] eqn:Hfind.
        rewrite (find_word_nif_accepted _ _ _ _ _ _ _ Hx Hlt Hfind). keep.
      * rewrite find_word_nif_too_long by lia. keep.
    + unfold find_word_nif.
      cbn [arg lookup list_lookup mbind outcome_bind].
      rewrite (enif_get_resource_model _ _ _ _ Hx).
      cbn [arg lookup list_lookup mbind outcome_bind]. rewrite Hbin. keep.
  - unfold find_word_nif.
    cbn [arg lookup list_lookup mbind outcome_bind]. rewrite Hres. keep.
Qed.

Lemma create_recognizer_nif_step st argv :
  length argv = 2%nat -> nif_step st (create_recognizer_nif st argv).
Proof.
  intros Hlen. args argv Hlen.
  destruct (enif_get_resource st a0 MODEL_TYPE) as [obj|] eqn:Hres.
  - apply enif_get_resource_Some in Hres as (x & -> & Hx & Hty).
    destruct x as [[[m]|[q]] n]; [|discriminate].
    destruct (enif_get_double a1) as [d|] eqn:Hd.
    + destruct a1; try discriminate Hd. injection Hd as ->.
      destruct (vosk_recognizer_new (engine st) m (float_of_double d))
        as [e' r] eqn:Hnew.
      rewrite (create_recognizer_nif_accepted _ _ _ _ _ _ _ Hx Hnew).
      destruct (decide (r = NULL)); [keep|].
      apply step_wrap; [reflexivity | assumption].
    + rewrite create_recognizer_nif_not_float by assumption. keep.
  - unfold create_recognizer_nif.
    cbn [arg lookup list_lookup mbind outcome_bind]. rewrite Hres. keep.
Qed.

Lemma set_max_alternatives_nif_step st argv :
  length argv = 2%nat -> nif_step st (set_max_alternatives_nif st argv).
Proof.
  intros Hlen. unfold set_max_alternatives_nif. args argv Hlen.
  on_recognizer st. destruct (enif_get_int a1); [rewrite Hr|]; keep.
Qed.

Lemma set_words_nif_step st argv :
  length argv = 2%nat -> nif_step st (set_words_nif st argv).
Proof.
  intros Hlen. unfold set_words_nif. args argv Hlen.
  on_recognizer st. destruct (enif_get_int a1); [rewrite Hr|]; keep.
Qed.

Lemma set_partial_words_nif_step st argv :
  length argv = 2%nat -> nif_step st (set_partial_words_nif st argv).
Proof.
  intros Hlen. unfold set_partial_words_nif. args argv Hlen.
  on_recognizer st. destruct (enif_get_int a1); [rewrite Hr|]; keep.
Qed.

Lemma accept_waveform_nif_step st argv :
  length argv = 2%nat -> nif_step st (accept_waveform_nif st argv).
Proof.
  intros Hlen. unfold accept_waveform_nif. args argv Hlen.
  on_recognizer st. destruct (enif_inspect_binary a1); [|keep].
  rewrite Hr. cbn [mbind outcome_bind]. unfold call_recognizer_accept_waveform.
  destruct (vosk_recognizer_accept_waveform _ _ _ _). keep.
Qed.

Lemma get_result_nif_step st argv :
  length argv = 1%nat -> nif_step st (get_result_nif st argv).
Proof.
  intros Hlen. unfold get_result_nif. args argv Hlen.
  on_recognizer st. rewrite Hr. cbn [mbind outcome_bind].
  unfold call_recognizer_result.
  destruct (vosk_recognizer_result _ _). keep.
Qed.

Lemma get_partial_result_nif_step st argv :
  length argv = 1%nat -> nif_step st (get_partial_result_nif st argv).
Proof.
  intros Hlen. unfold get_partial_result_nif. args argv Hlen.
  on_recognizer st. rewrite Hr. cbn [mbind outcome_bind].
  unfold call_recognizer_partial_result.
  destruct (vosk_recognizer_partial_result _ _). keep.
Qed.

Lemma get_final_result_nif_step st argv :
  length argv = 1%nat -> nif_step st (get_final_result_nif st argv).
Proof.
  intros Hlen. unfold get_final_result_nif. args argv Hlen.
  on_recognizer st. rewrite Hr. cbn [mbind outcome_bind].
  unfold call_recognizer_final_result.
  destruct (vosk_recognizer_final_result _ _). keep.
Qed.

Lemma reset_recognizer_nif_step st argv :
  length argv = 1%nat -> nif_step st (reset_recognizer_nif st argv).
Proof.
  intros Hlen. unfold reset_recognizer_nif. args argv Hlen.
  on_recognizer st. rewrite Hr. keep.
Qed.

Lemma nif_funcs_step :
  Forall (fun f => forall st argv,
              length argv = arity f -> nif_step st (fptr f st argv))
    nif_funcs.
Proof.
  unfold nif_funcs.
  repeat apply Forall_cons_2; try apply Forall_nil_2; cbn [arity fptr];
    auto using set_log_level_nif_step, load_model_nif_step, find_word_nif_step,
      create_recognizer_nif_step, set_max_alternatives_nif_step,
      set_words_nif_step, set_partial_words_nif_step, accept_waveform_nif_step,
      get_result_nif_step, get_partial_result_nif_step,
      get_final_result_nif_step, reset_recognizer_nif_step.
Qed.

Lemma nif_step_of_table (f : ErlNifFunc) st argv (st' : @world E)
  (r : nif_result) :
  f ∈ nif_funcs ->
  length argv = arity f ->
  fptr f st argv = Done (st', r) ->
  heap st' = heap st
  \/ exists x,
       heap st' = heap st ++ [x]
       /\ refc x = 1%nat
       /\ pointer_of x <> NULL
       /\ r = Value (Tuple [Atom "ok"; Resource (length (heap st))]).
Proof.
  intros Hin Hlen Hrun.
  destruct (proj1 (Forall_forall _ _) nif_funcs_step f Hin st argv Hlen)
    as (st1 & r1 & Heq & Hstep).
  rewrite Hrun in Heq. injection Heq as <- <-. exact Hstep.
Qed.

Lemma live_heap_snoc (h : list resource) (x : resource) :
  live_heap h = true -> pointer_of x <> NULL -> live_heap (h ++ [x]) = true.
Proof.
  intros Hh Hx. unfold live_heap in *. rewrite forallb_app, Hh.
  cbn [forallb andb]. rewrite andb_true_r.
  apply negb_true_iff, Z.eqb_neq, Hx.
Qed.

(** X8.  A NIF call never disturbs an existing resource object.  For every
    entry of the export table called with its declared number of
    arguments, the objects after the call are the objects before it,
    unchanged and at the same places, followed by at most one new object;
    a new object is referenced once, holds a non-null pointer, and is the
    one named by the [{ok, Handle}] that the call returns. *)
Theorem nif_call_keeps_objects (f : ErlNifFunc) st argv (st' : @world E)
  (r : nif_result) :
  f ∈ nif_funcs ->
  length argv = arity f ->
  fptr f st argv = Done (st', r) ->
  (forall i x, heap st !! i = Some x -> heap st' !! i = Some x)
  /\ (heap st' = heap st
      \/ exists x,
           heap st' = heap st ++ [x]
           /\ refc x = 1%nat
           /\ pointer_of x <> NULL
           /\ r = Value (Tuple [Atom "ok"; Resource (length (heap st))])).
Proof.
  intros Hin Hlen Hrun.
  pose proof (nif_step_of_table f st argv st' r Hin Hlen Hrun) as Hstep.
  split; [|exact Hstep].
  intros i x Hi. destruct Hstep as [->|(y & -> & _)]; [exact Hi|].
  apply lookup_app_l_Some, Hi.
Qed.

(** X9.  A handle stays good across NIF calls.  If a term resolves to an
    object of some type before a call of any entry of the export table, it
    resolves to the same object of the same type after the call, and the
    pointer stored in the object is the same. *)
Theorem handles_survive_nif_calls (f : ErlNifFunc) st argv (st' : @world E)
  (r : nif_result) (t : ERL_NIF_TERM) (ty : ErlNifResourceType) (obj : nat) :
  f ∈ nif_funcs ->
  length argv = arity f ->
  fptr f st argv = Done (st', r) ->
  enif_get_resource st t ty = Some obj ->
  enif_get_resource st' t ty = Some obj
  /\ get_model st' obj = get_model st obj
  /\ get_recognizer st' obj = get_recognizer st obj.
Proof.
  intros Hin Hlen Hrun Hres.
  apply enif_get_resource_Some in Hres as (x & -> & Hx & Hty).
  assert (Hx' : heap st' !! obj = Some x).
  { destruct (nif_step_of_table f st argv st' r Hin Hlen Hrun)
      as [->|(y & -> & _)]; [exact Hx|].
    apply lookup_app_l_Some, Hx. }
  unfold enif_get_resource, get_model, get_recognizer.
  rewrite Hx, Hx', decide_True by assumption. auto.
Qed.

(** X10.  No NIF frees.  For every entry of the export table called with
    its declared number of arguments, the number of times the engine has
    been asked to free any given pointer is the same after the call as
    before: [vosk_model_free] and [vosk_recognizer_free] are reached from
    the destructors only. *)
Theorem nif_call_never_frees (f : ErlNifFunc) st argv (st' : @world E)
  (r : nif_result) (p : ptr) :
  f ∈ nif_funcs ->
  length argv = arity f ->
  fptr f st argv = Done (st', r) ->
  frees_of p (calls st') = frees_of p (calls st).
Proof.
  intros Hin Hlen Hrun.
  destruct (proj1 (Forall_forall _ _) nif_funcs_safe f Hin st argv Hlen)
    as (st1 & r1 & Heq & _ & _ & Hcalls).
  rewrite Hrun in Heq. injection Heq as <- <-.
  destruct Hcalls as [->|(c & -> & Hc)]; [reflexivity|].
  rewrite frees_of_snoc.
  destruct c; cbn [checked_call] in Hc; try discriminate Hc;
    cbn [is_free_of]; lia.
Qed.

(** X11.  Non-null pointers are an invariant of the NIFs.  If every
    resource object holds a non-null pointer before a call of any entry of
    the export table, every resource object holds one after it: the two
    constructors wrap only what the engine answered non-null. *)
Theorem nif_call_keeps_heap_live (f : ErlNifFunc) st argv (st' : @world E)
  (r : nif_result) :
  f ∈ nif_funcs ->
  length argv = arity f ->
  fptr f st argv = Done (st', r) ->
  live_heap (heap st) = true ->
  live_heap (heap st') = true.
Proof.
  intros Hin Hlen Hrun Hlive.
  destruct (nif_step_of_table f st argv st' r Hin Hlen Hrun)
    as [->|(x & -> & _ & Hx & _)]; [exact Hlive|].
  apply live_heap_snoc; assumption.
Qed.

End Invariants.

Lemma nif_call_keeps_objects_witness :
  (forall i x, heap two_handles !! i = Some x ->
               heap after_load_model !! i = Some x)
  /\ (heap after_load_model = heap two_handles
      \/ exists x,
           heap after_load_model = heap two_handles ++ [x]
           /\ refc x = 1%nat
           /\ pointer_of x <> NULL
           /\ Value (Tuple [Atom "ok"; Resource 2])
              = Value (Tuple [Atom "ok"; Resource (length (heap two_handles))])).
Proof.
  exact (nif_call_keeps_objects (api := counting_engine) load_model_entry
           two_handles [Binary ["m"%byte]] after_load_model
           (Value (Tuple [Atom "ok"; Resource 2]))
           ltac:(apply list_elem_of_further, list_elem_of_here) eq_refl
           ltac:(vm_compute; reflexivity)).
Defined.

Lemma handles_survive_nif_calls_witness :
  enif_get_resource after_load_model (Resource 1) VoskRecognizer = Some 1%nat
  /\ get_model after_load_model 1 = get_model two_handles 1
  /\ get_recognizer after_load_model 1 = get_recognizer two_handles 1.
Proof.
  exact (handles_survive_nif_calls (api := counting_engine) load_model_entry
           two_handles [Binary ["m"%byte]] after_load_model
           (Value (Tuple [Atom "ok"; Resource 2])) (Resource 1) VoskRecognizer
           1%nat ltac:(apply list_elem_of_further, list_elem_of_here) eq_refl
           ltac:(vm_compute; reflexivity) eq_refl).
Defined.

Lemma nif_call_never_frees_witness :
  frees_of 7 (calls after_load_model) = frees_of 7 (calls two_handles).
Proof.
  exact (nif_call_never_frees (api := counting_engine) load_model_entry
           two_handles [Binary ["m"%byte]] after_load_model
           (Value (Tuple [Atom "ok"; Resource 2])) 7
           ltac:(apply list_elem_of_further, list_elem_of_here) eq_refl
           ltac:(vm_compute; reflexivity)).
Defined.

Lemma nif_call_keeps_heap_live_witness :
  live_heap (heap after_load_model) = true.
Proof.
  exact (nif_call_keeps_heap_live (api := counting_engine) load_model_entry
           two_handles [Binary ["m"%byte]] after_load_model
           (Value (Tuple [Atom "ok"; Resource 2]))
           ltac:(apply list_elem_of_further, list_elem_of_here) eq_refl
           ltac:(vm_compute; reflexivity) eq_refl).
Defined.

(** ** Destructors in general, and handles after them *)

Section DestructorsMore.
Context {E : Type} {api : VoskApi E}.
Implicit Types (st : @world E) (obj : nat) (p : ptr).

Lemma get_result_nif_accepted st obj p (n : nat) :
  heap st !! obj
  = Some {| payload := RecognizerData {| recognizer := p |}; refc := n |} ->
  get_result_nif st [Resource obj]
  = Done (enter st (fst (vosk_recognizer_result (engine st) p))
            (Call_recognizer_result p),
          Value (CharList ERL_NIF_UTF8
                   (snd (vosk_recognizer_result (engine st) p)))).
Proof.
  intros Hobj. unfold get_result_nif.
  cbn [arg lookup list_lookup mbind outcome_bind].
  rewrite (enif_get_resource_recognizer _ _ _ _ Hobj).
  rewrite (get_recognizer_lookup _ _ _ _ Hobj). cbn [mbind outcome_bind].
  unfold call_recognizer_result.
  destruct (vosk_recognizer_result (engine st) p). reflexivity.
Qed.

(** X12.  The destructors are idempotent and local, whatever the object
    holds.  When [model_destructor] runs on an object, null or not, in any
    state, a second run on the result changes nothing; after the run the
    object holds null, keeps its type and its reference count, and every
    other object is as it was.  The same holds for
    [recognizer_destructor]. *)
Theorem destructors_idempotent_and_local :
  (forall st (mobj : nat) (sm : @world E),
      model_destructor st mobj = Done sm ->
      model_destructor sm mobj = Done sm
      /\ get_model sm mobj = Done NULL
      /\ type_of <$> heap sm !! mobj = type_of <$> heap st !! mobj
      /\ refc <$> heap sm !! mobj = refc <$> heap st !! mobj
      /\ length (heap sm) = length (heap st)
      /\ forall j, j <> mobj -> heap sm !! j = heap st !! j)
  /\
  (forall st (robj : nat) (sr : @world E),
      recognizer_destructor st robj = Done sr ->
      recognizer_destructor sr robj = Done sr
      /\ get_recognizer sr robj = Done NULL
      /\ type_of <$> heap sr !! robj = type_of <$> heap st !! robj
      /\ refc <$> heap sr !! robj = refc <$> heap st !! robj
      /\ length (heap sr) = length (heap st)
      /\ forall j, j <> robj -> heap sr !! j = heap st !! j).
Proof.
  split.
  - intros st mobj sm Hm.
    assert (Hshape : exists m n,
               heap st !! mobj
               = Some {| payload := ModelData {| model := m |}; refc := n |}).
    { unfold model_destructor, get_model in Hm.
      destruct (heap st !! mobj) as [[[[m]|[q]] n]|]; try discriminate Hm.
      eauto. }
    destruct Hshape as (m & n & Hobj).
    destruct (decide (m <> NULL)) as [Hnn|Hnull].
    + rewrite (model_destructor_releases st mobj m n Hnn Hobj) in Hm.
      injection Hm as <-. cbn [heap].
      assert (Hlt : (mobj < length (heap st))%nat)
        by (eapply lookup_lt_Some; eauto).
      assert (Hnew : <[mobj := {| payload := ModelData {| model := NULL |};
                                 refc := n |}]> (heap st) !! mobj
                     = Some {| payload := ModelData {| model := NULL |};
                               refc := n |})
        by (apply list_lookup_insert_eq; assumption).
      split; [eapply model_destructor_null; cbn [heap]; exact Hnew|].
      split; [eapply get_model_lookup; cbn [heap]; exact Hnew|].
      rewrite Hnew, Hobj, length_insert.
      repeat split. intros j Hj. apply list_lookup_insert_ne. congruence.
    + assert (m = NULL) as -> by (destruct (decide (m = NULL)); tauto).
      rewrite (model_destructor_null st mobj n Hobj) in Hm.
      injection Hm as <-.
      split; [eapply model_destructor_null; exact Hobj|].
      split; [eapply get_model_lookup; exact Hobj|]. repeat split.
  - intros st robj sr Hr.
    assert (Hshape : exists q n,
               heap st !! robj
               = Some {| payload := RecognizerData {| recognizer := q |};
                         refc := n |}).
    { unfold recognizer_destructor, get_recognizer in Hr.
      destruct (heap st !! robj) as [[[[m]|[q]] n]|]; try discriminate Hr.
      eauto. }
    destruct Hshape as (q & n & Hobj).
    destruct (decide (q <> NULL)) as [Hnn|Hnull].
    + rewrite (recognizer_destructor_releases st robj q n Hnn Hobj) in Hr.
      injection Hr as <-. cbn [heap].
      assert (Hlt : (robj < length (heap st))%nat)
        by (eapply lookup_lt_Some; eauto).
      assert (Hnew : <[robj := {| payload := RecognizerData
                                               {| recognizer := NULL |};
                                 refc := n |}]> (heap st) !! robj
                     = Some {| payload := RecognizerData {| recognizer := NULL |};
                               refc := n |})
        by (apply list_lookup_insert_eq; assumption).
      split; [eapply recognizer_destructor_null; cbn [heap]; exact Hnew|].
      split; [eapply get_recognizer_lookup; cbn [heap]; exact Hnew|].
      rewrite Hnew, Hobj, length_insert.
      repeat split. intros j Hj. apply list_lookup_insert_ne. congruence.
    + assert (q = NULL) as -> by (destruct (decide (q = NULL)); tauto).
      rewrite (recognizer_destructor_null st robj n Hobj) in Hr.
      injection Hr as <-.
      split; [eapply recognizer_destructor_null; exact Hobj|].
      split; [eapply get_recognizer_lookup; exact Hobj|]. repeat split.
Qed.

(** X13.  The NIFs do not look at the stored pointer.  After
    [model_destructor] has run on a model object, in any state, a handle to
    the object still resolves, and [find_word_nif] given that handle calls
    [vosk_model_find_word] with the null pointer the destructor left;
    after [recognizer_destructor] has run on a recognizer object,
    [get_result_nif] calls [vosk_recognizer_result] on null.  That this
    does not happen rests on the runtime running a destructor only when no
    handle is left. *)
Theorem destroyed_handle_passes_null :
  (forall st (mobj : nat) (m : ptr) (mrefs : nat) (word : list byte),
      m <> NULL ->
      heap st !! mobj
      = Some {| payload := ModelData {| model := m |}; refc := mrefs |} ->
      (length word < 256)%nat ->
      exists sm s2 z,
        model_destructor st mobj = Done sm
        /\ enif_get_resource sm (Resource mobj) MODEL_TYPE = Some mobj
        /\ find_word_nif sm [Resource mobj; Binary word]
           = Done (s2, Value (Integer z))
        /\ calls s2
           = calls sm
             ++ [Call_model_find_word NULL (terminated_array 256 word)])
  /\
  (forall st (robj : nat) (r : ptr) (rrefs : nat),
      r <> NULL ->
      heap st !! robj
      = Some {| payload := RecognizerData {| recognizer := r |};
                refc := rrefs |} ->
      exists sr s2 t,
        recognizer_destructor st robj = Done sr
        /\ enif_get_resource sr (Resource robj) RECOGNIZER_TYPE = Some robj
        /\ get_result_nif sr [Resource robj] = Done (s2, Value t)
        /\ calls s2 = calls sr ++ [Call_recognizer_result NULL]).
Proof.
  split.
  - intros st mobj m mrefs word Hm Hmo Hw.
    assert (Hml : (mobj < length (heap st))%nat)
      by (eapply lookup_lt_Some; eauto).
    rewrite (model_destructor_releases st mobj m mrefs Hm Hmo).
    set (sm := {| heap := _; engine := _; calls := _ |}).
    assert (Hnew : heap sm !! mobj
                   = Some {| payload := ModelData {| model := NULL |};
                             refc := mrefs |})
      by (apply list_lookup_insert_eq; assumption).
    destruct (vosk_model_find_word (engine sm) NULL (until_nul word))
      as [e z] eqn:Hfind.
    exists sm. do 2 eexists. split; [reflexivity|].
    split; [eapply enif_get_resource_model; exact Hnew|].
    split; [apply (find_word_nif_accepted _ _ _ _ _ _ _ Hnew Hw Hfind)|].
    reflexivity.
  - intros st robj r rrefs Hr Hro.
    assert (Hrl : (robj < length (heap st))%nat)
      by (eapply lookup_lt_Some; eauto).
    rewrite (recognizer_destructor_releases st robj r rrefs Hr Hro).
    set (sr := {| heap := _; engine := _; calls := _ |}).
    assert (Hnew : heap sr !! robj
                   = Some {| payload := RecognizerData {| recognizer := NULL |};
                             refc := rrefs |})
      by (apply list_lookup_insert_eq; assumption).
    exists sr. do 2 eexists. split; [reflexivity|].
    split; [eapply enif_get_resource_recognizer; exact Hnew|].
    split; [apply (get_result_nif_accepted _ _ _ _ Hnew)|].
    reflexivity.
Qed.

End DestructorsMore.

(** A releasing run: on a state that holds only a model at address 7 and
    on one that holds only a recognizer at address 9, the state after the
    destructor is a fixed point of it. *)
Lemma destructors_idempotent_and_local_witness :
  (model_destructor (api := counting_engine)
     {| heap := [ {| payload := ModelData {| model := NULL |}; refc := 1 |} ];
        engine := 1; calls := [Call_model_free 7] |} 0
   = Done {| heap := [ {| payload := ModelData {| model := NULL |};
                          refc := 1 |} ];
             engine := 1; calls := [Call_model_free 7] |}
   /\ get_model (E := Z)
        {| heap := [ {| payload := ModelData {| model := NULL |}; refc := 1 |} ];
           engine := 1; calls := [Call_model_free 7] |} 0
      = Done NULL)
  /\ (recognizer_destructor (api := counting_engine)
        {| heap := [ {| payload := RecognizerData {| recognizer := NULL |};
                        refc := 1 |} ];
           engine := 1; calls := [Call_recognizer_free 9] |} 0
      = Done {| heap := [ {| payload := RecognizerData {| recognizer := NULL |};
                             refc := 1 |} ];
                engine := 1; calls := [Call_recognizer_free 9] |}
      /\ get_recognizer (E := Z)
           {| heap := [ {| payload := RecognizerData {| recognizer := NULL |};
                           refc := 1 |} ];
              engine := 1; calls := [Call_recognizer_free 9] |} 0
         = Done NULL).
Proof.
  destruct (destructors_idempotent_and_local (api := counting_engine))
    as [Hmodel Hrecognizer].
  split.
  - destruct (Hmodel only_a_model 0%nat
                {| heap := [ {| payload := ModelData {| model := NULL |};
                                refc := 1 |} ];
                   engine := 1; calls := [Call_model_free 7] |}
                eq_refl) as (H1 & H2 & _).
    split; [exact H1 | exact H2].
  - destruct (Hrecognizer only_a_recognizer 0%nat
                {| heap := [ {| payload := RecognizerData {| recognizer := NULL |};
                                refc := 1 |} ];
                   engine := 1; calls := [Call_recognizer_free 9] |}
                eq_refl) as (H1 & H2 & _).
    split; [exact H1 | exact H2].
Defined.

(** A model handle in a state without any recognizer, a recognizer handle
    in a state without any model. *)
Lemma destroyed_handle_passes_null_witness :
  (exists sm s2 z,
      model_destructor (api := counting_engine) only_a_model 0 = Done sm
      /\ enif_get_resource sm (Resource 0) MODEL_TYPE = Some 0%nat
      /\ find_word_nif (api := counting_engine) sm
           [Resource 0; Binary ["h"; "i"]%byte] = Done (s2, Value (Integer z))
      /\ calls s2
         = calls sm
           ++ [Call_model_find_word NULL (terminated_array 256 ["h"; "i"]%byte)])
  /\
  (exists sr s2 t,
      recognizer_destructor (api := counting_engine) only_a_recognizer 0
      = Done sr
      /\ enif_get_resource sr (Resource 0) RECOGNIZER_TYPE = Some 0%nat
      /\ get_result_nif (api := counting_engine) sr [Resource 0]
         = Done (s2, Value t)
      /\ calls s2 = calls sr ++ [Call_recognizer_result NULL]).
Proof.
  destruct (destroyed_handle_passes_null (api := counting_engine))
    as [Hmodel Hrecognizer].
  split.
  - apply (Hmodel only_a_model 0%nat 7 1%nat ["h"; "i"]%byte);
      [discriminate | reflexivity | cbn; lia].
  - apply (Hrecognizer only_a_recognizer 0%nat 9 1%nat);
      [discriminate | reflexivity].
Defined.

(** ** From a constructor to the operations on its handle *)

Section RoundTrips.
Context {E : Type} {api : VoskApi E}.
Implicit Types (st : @world E) (obj : nat).

(** X14.  A handle made by [load_model_nif] is a model handle for the
    pointer the engine answered.  After a load that the engine answered
    with a non-null [m], the returned handle given to [find_word_nif] makes
    it call [vosk_model_find_word] on [m], given to [create_recognizer_nif]
    makes it call [vosk_recognizer_new] on [m], and given to a recognizer
    operation is refused with badarg. *)
Theorem loaded_model_handle_round_trip st (path word : list byte) (e : E)
  (m : ptr) (sample_rate : double) :
  (length path < 1024)%nat ->
  (length word < 256)%nat ->
  vosk_model_new (engine st) (until_nul path) = (e, m) ->
  m <> NULL ->
  exists st1 h,
    load_model_nif st [Binary path] = Done (st1, Value (Tuple [Atom "ok"; h]))
    /\ (exists st2 z,
          find_word_nif st1 [h; Binary word] = Done (st2, Value (Integer z))
          /\ calls st2
             = calls st1
               ++ [Call_model_find_word m (terminated_array 256 word)])
    /\ (exists st2 t,
          create_recognizer_nif st1 [h; Float sample_rate]
          = Done (st2, Value t)
          /\ calls st2
             = calls st1
               ++ [Call_recognizer_new m (float_of_double sample_rate)])
    /\ get_result_nif st1 [h] = Done (st1, Badarg).
Proof.
  intros Hp Hw Hnew Hm.
  rewrite (load_model_nif_accepted _ _ _ _ Hp Hnew).
  rewrite decide_False by assumption.
  set (st1 := {| heap := _; engine := _; calls := _ |}).
  assert (Hobj : heap st1 !! length (heap st)
                 = Some {| payload := ModelData {| model := m |}; refc := 1 |})
    by apply lookup_new_object.
  exists st1, (Resource (length (heap st))). split; [reflexivity|].
  split; [|split].
  - destruct (vosk_model_find_word (engine st1) m (until_nul word))
      as [e2 z] eqn:Hfind.
    rewrite (find_word_nif_accepted _ _ _ _ _ _ _ Hobj Hw Hfind). eauto.
  - destruct (vosk_recognizer_new (engine st1) m (float_of_double sample_rate))
      as [e2 r] eqn:Hrec.
    rewrite (create_recognizer_nif_accepted _ _ _ _ _ _ _ Hobj Hrec).
    destruct (decide (r = NULL)); eauto.
  - unfold get_result_nif. cbn [arg lookup list_lookup mbind outcome_bind].
    rewrite (enif_get_resource_other _ _ _ RECOGNIZER_TYPE Hobj)
      by discriminate.
    reflexivity.
Qed.

(** X15.  A handle made by [create_recognizer_nif] is a recognizer handle
    for the pointer the engine answered.  After a creation that the engine
    answered with a non-null [r], the returned handle given to
    [accept_waveform_nif] makes it call [vosk_recognizer_accept_waveform]
    on [r], given to [get_result_nif] makes it call
    [vosk_recognizer_result] on [r], and given to a model operation is
    refused with badarg; the model handle used for the creation is still a
    handle for the same model. *)
Theorem created_recognizer_handle_round_trip st obj (m : ptr) (n : nat)
  (sample_rate : double) (e : E) (r : ptr) (audio word : list byte) :
  heap st !! obj = Some {| payload := ModelData {| model := m |}; refc := n |} ->
  vosk_recognizer_new (engine st) m (float_of_double sample_rate) = (e, r) ->
  r <> NULL ->
  exists st1 h,
    create_recognizer_nif st [Resource obj; Float sample_rate]
    = Done (st1, Value (Tuple [Atom "ok"; h]))
    /\ (exists st2 z,
          accept_waveform_nif st1 [h; Binary audio]
          = Done (st2, Value (Integer z))
          /\ calls st2
             = calls st1
               ++ [Call_recognizer_accept_waveform r audio
                     (int_of_size_t (length audio))])
    /\ (exists st2 s,
          get_result_nif st1 [h] = Done (st2, Value (CharList ERL_NIF_UTF8 s))
          /\ calls st2 = calls st1 ++ [Call_recognizer_result r])
    /\ find_word_nif st1 [h; Binary word] = Done (st1, Badarg)
    /\ enif_get_resource st1 (Resource obj) MODEL_TYPE = Some obj
    /\ get_model st1 obj = Done m.
Proof.
  intros Hobj Hnew Hr.
  rewrite (create_recognizer_nif_accepted _ _ _ _ _ _ _ Hobj Hnew).
  rewrite decide_False by assumption.
  set (st1 := {| heap := _; engine := _; calls := _ |}).
  assert (Hrec : heap st1 !! length (heap st)
                 = Some {| payload := RecognizerData {| recognizer := r |};
                           refc := 1 |})
    by apply lookup_new_object.
  assert (Hobj1 : heap st1 !! obj
                  = Some {| payload := ModelData {| model := m |}; refc := n |})
    by (apply lookup_app_l_Some, Hobj).
  exists st1, (Resource (length (heap st))). split; [reflexivity|].
  split; [|split; [|split; [|split]]].
  - destruct (vosk_recognizer_accept_waveform (engine st1) r audio
                (int_of_size_t (length audio))) as [e2 z] eqn:Hacc.
    rewrite (accept_waveform_nif_accepted _ _ _ _ _ _ _ Hrec Hacc). eauto.
  - rewrite (get_result_nif_accepted _ _ _ _ Hrec). eauto.
  - unfold find_word_nif. cbn [arg lookup list_lookup mbind outcome_bind].
    rewrite (enif_get_resource_other _ _ _ MODEL_TYPE Hrec) by discriminate.
    reflexivity.
  - eapply enif_get_resource_model; exact Hobj1.
  - eapply get_model_lookup; exact Hobj1.
Qed.

(** X16.  The engine cannot tell apart two inputs that agree up to their
    first zero byte.  In any state, two accepted paths with the same bytes
    before the first zero byte make [load_model_nif] return the same term
    and leave the same resource objects and the same engine state; with a
    model handle, two such words do the same to [find_word_nif]. *)
Theorem inputs_equal_up_to_nul :
  (forall st (path1 path2 : list byte),
      (length path1 < 1024)%nat ->
      (length path2 < 1024)%nat ->
      until_nul path1 = until_nul path2 ->
      exists s1 s2 r,
        load_model_nif st [Binary path1] = Done (s1, r)
        /\ load_model_nif st [Binary path2] = Done (s2, r)
        /\ heap s1 = heap s2
        /\ engine s1 = engine s2)
  /\ (forall st obj (m : ptr) (n : nat) (word1 word2 : list byte),
        heap st !! obj
        = Some {| payload := ModelData {| model := m |}; refc := n |} ->
        (length word1 < 256)%nat ->
        (length word2 < 256)%nat ->
        until_nul word1 = until_nul word2 ->
        exists s1 s2 r,
          find_word_nif st [Resource obj; Binary word1] = Done (s1, r)
          /\ find_word_nif st [Resource obj; Binary word2] = Done (s2, r)
          /\ heap s1 = heap s2
          /\ engine s1 = engine s2).
Proof.
  split.
  - intros st path1 path2 Hp1 Hp2 Hp.
    destruct (vosk_model_new (engine st) (until_nul path1)) as [e p] eqn:Hnew.
    rewrite (load_model_nif_accepted _ _ _ _ Hp1 Hnew).
    rewrite Hp in Hnew. rewrite (load_model_nif_accepted _ _ _ _ Hp2 Hnew).
    destruct (decide (p = NULL)); do 3 eexists; repeat split.
  - intros st obj m n word1 word2 Hobj Hw1 Hw2 Hw.
    destruct (vosk_model_find_word (engine st) m (until_nul word1))
      as [e z] eqn:Hfind.
    rewrite (find_word_nif_accepted _ _ _ _ _ _ _ Hobj Hw1 Hfind).
    rewrite Hw in Hfind.
    rewrite (find_word_nif_accepted _ _ _ _ _ _ _ Hobj Hw2 Hfind).
    do 3 eexists; repeat split.
Qed.

End RoundTrips.

Lemma loaded_model_handle_round_trip_witness :
  exists st1 h,
    load_model_nif (api := counting_engine) two_handles [Binary ["m"%byte]]
    = Done (st1, Value (Tuple [Atom "ok"; h]))
    /\ (exists st2 z,
          find_word_nif (api := counting_engine) st1
            [h; Binary ["h"; "i"]%byte] = Done (st2, Value (Integer z))
          /\ calls st2
             = calls st1
               ++ [Call_model_find_word 3
                     (terminated_array 256 ["h"; "i"]%byte)])
    /\ (exists st2 t,
          create_recognizer_nif (api := counting_engine) st1
            [h; Float sixteen_khz] = Done (st2, Value t)
          /\ calls st2
             = calls st1
               ++ [Call_recognizer_new 3 (float_of_double sixteen_khz)])
    /\ get_result_nif (api := counting_engine) st1 [h] = Done (st1, Badarg).
Proof.
  apply (loaded_model_handle_round_trip (api := counting_engine) two_handles
           ["m"%byte] ["h"; "i"]%byte 3 3 sixteen_khz).
  - cbn. lia.
  - cbn. lia.
  - reflexivity.
  - discriminate.
Defined.

Lemma created_recognizer_handle_round_trip_witness :
  exists st1 h,
    create_recognizer_nif (api := counting_engine) two_handles
      [Resource 0; Float sixteen_khz]
    = Done (st1, Value (Tuple [Atom "ok"; h]))
    /\ (exists st2 z,
          accept_waveform_nif (api := counting_engine) st1
            [h; Binary [x00; x00]] = Done (st2, Value (Integer z))
          /\ calls st2
             = calls st1
               ++ [Call_recognizer_accept_waveform 3 [x00; x00]
                     (int_of_size_t (length [x00; x00]))])
    /\ (exists st2 s,
          get_result_nif (api := counting_engine) st1 [h]
          = Done (st2, Value (CharList ERL_NIF_UTF8 s))
          /\ calls st2 = calls st1 ++ [Call_recognizer_result 3])
    /\ find_word_nif (api := counting_engine) st1 [h; Binary ["h"%byte]]
       = Done (st1, Badarg)
    /\ enif_get_resource st1 (Resource 0) MODEL_TYPE = Some 0%nat
    /\ get_model st1 0 = Done 7.
Proof.
  apply (created_recognizer_handle_round_trip (api := counting_engine)
           two_handles 0%nat 7 1%nat sixteen_khz 3 3 [x00; x00] ["h"%byte]).
  - reflexivity.
  - reflexivity.
  - discriminate.
Defined.

(** Two paths in a state without any resource object, two words on a
    model handle. *)
Lemma inputs_equal_up_to_nul_witness :
  (exists s1 s2 r,
      load_model_nif (api := counting_engine) empty_world
        [Binary ["m"; x00; "x"]%byte] = Done (s1, r)
      /\ load_model_nif (api := counting_engine) empty_world
           [Binary ["m"; x00; "y"; "z"]%byte] = Done (s2, r)
      /\ heap s1 = heap s2
      /\ engine s1 = engine s2)
  /\ (exists s1 s2 r,
        find_word_nif (api := counting_engine) only_a_model
          [Resource 0; Binary ["a"; x00]%byte] = Done (s1, r)
        /\ find_word_nif (api := counting_engine) only_a_model
             [Resource 0; Binary ["a"; x00; "b"]%byte] = Done (s2, r)
        /\ heap s1 = heap s2
        /\ engine s1 = engine s2).
Proof.
  destruct (inputs_equal_up_to_nul (api := counting_engine)) as [Hpath Hword].
  split.
  - apply (Hpath empty_world ["m"; x00; "x"]%byte ["m"; x00; "y"; "z"]%byte);
      [cbn; lia | cbn; lia | reflexivity].
  - apply (Hword only_a_model 0%nat 7 1%nat ["a"; x00]%byte
             ["a"; x00; "b"]%byte);
      [reflexivity | cbn; lia | cbn; lia | reflexivity].
Defined.

(** ** The export table as a dispatcher, and the rejected calls *)

Section Dispatch.
Context {E : Type} {api : VoskApi E}.
Implicit Types (st : @world E) (argv : list ERL_NIF_TERM).

Lemma find_none_iff {A : Type} (f : A -> bool) (l : list A) :
  find f l = None <-> (forall x, x ∈ l -> f x = false).
Proof.
  induction l as [|a l IH]; cbn [find].
  - split; [|reflexivity]. intros _ x Hx. apply elem_of_nil in Hx. contradiction.
  - destruct (f a) eqn:Ha.
    + split; [discriminate|]. intros H.
      rewrite (H a (list_elem_of_here _ _)) in Ha. discriminate.
    + rewrite IH. split.
      * intros H x Hx. apply elem_of_cons in Hx as [->|Hx]; auto.
      * intros H x Hx. apply H. apply list_elem_of_further, Hx.
Qed.

Lemma apply_nif_lookup (fname : string) st argv :
  apply_nif fname st argv
  = (fun f => fptr f st argv) <$> lookup_nif fname (length argv).
Proof.
  unfold apply_nif, lookup_nif.
  destruct (find _ nif_funcs); reflexivity.
Qed.

(** X17.  The export table dispatches without ambiguity.  Its twelve names
    are pairwise distinct, so a call by the name and arity of an entry
    runs the function of that very entry; a call by a name the table does
    not have at that arity reaches no function at all. *)
Theorem export_table_dispatch (f : ErlNifFunc) (fname : string) st argv :
  f ∈ nif_funcs ->
  length argv = arity f ->
  (forall g, g ∈ nif_funcs -> name g = fname -> arity g <> length argv) ->
  NoDup (name <$> nif_funcs)
  /\ lookup_nif (name f) (arity f) = Some f
  /\ apply_nif (name f) st argv = Some (fptr f st argv)
  /\ apply_nif fname st argv = None.
Proof.
  intros Hin Hlen Hmiss.
  assert (Hall : Forall (fun g => lookup_nif (name g) (arity g) = Some g)
                   nif_funcs).
  { unfold nif_funcs.
    repeat apply Forall_cons_2; try apply Forall_nil_2; reflexivity. }
  pose proof (proj1 (Forall_forall _ _) Hall f Hin) as Hf.
  split; [|split; [exact Hf|split]].
  - unfold nif_funcs. cbn [fmap list_fmap name].
    repeat (apply NoDup_cons_2;
            [cbn; intros Hx;
             repeat (apply elem_of_cons in Hx as [Hx|Hx]; [discriminate|]);
             apply elem_of_nil in Hx; exact Hx|]).
    apply NoDup_nil_2.
  - rewrite apply_nif_lookup, Hlen, Hf. reflexivity.
  - rewrite apply_nif_lookup. unfold lookup_nif.
    rewrite (proj2 (find_none_iff _ _)); [reflexivity|].
    intros g Hg. apply andb_false_iff.
    destruct (String.eqb (name g) fname) eqn:Hname; [right | left; reflexivity].
    apply String.eqb_eq in Hname. apply Nat.eqb_neq. exact (Hmiss g Hg Hname).
Qed.

(** X18.  Badarg is raised exactly on malformed arguments.  For the four
    entry points that take bytes or a float: [load_model_nif] raises badarg
    exactly when its argument is not a binary under 1024 bytes;
    [find_word_nif] exactly when the first argument is not a model handle
    or the second is not a binary under 256 bytes; [create_recognizer_nif]
    exactly when the first is not a model handle or the second is not a
    float; [accept_waveform_nif] exactly when the first is not a
    recognizer handle or the second is not a binary, of any length, the
    empty one included. *)
Theorem badarg_exactly_on_malformed st (a0 a1 : ERL_NIF_TERM) :
  ((exists st', load_model_nif st [a0] = Done (st', Badarg))
   <-> ~ exists b, a0 = Binary b /\ (length b < 1024)%nat)
  /\ ((exists st', find_word_nif st [a0; a1] = Done (st', Badarg))
      <-> enif_get_resource st a0 MODEL_TYPE = None
          \/ ~ exists b, a1 = Binary b /\ (length b < 256)%nat)
  /\ ((exists st', create_recognizer_nif st [a0; a1] = Done (st', Badarg))
      <-> enif_get_resource st a0 MODEL_TYPE = None
          \/ ~ exists d, a1 = Float d)
  /\ ((exists st', accept_waveform_nif st [a0; a1] = Done (st', Badarg))
      <-> enif_get_resource st a0 RECOGNIZER_TYPE = None
          \/ ~ exists b, a1 = Binary b).
Proof.
  split; [|split; [|split]].
  - split.
    + intros (st' & Hrun) (b & -> & Hlt).
      destruct (vosk_model_new (engine st) (until_nul b)) as [e m] eqn:Hnew.
      rewrite (load_model_nif_accepted _ _ _ _ Hlt Hnew) in Hrun.
      destruct (decide (m = NULL)); discriminate Hrun.
    + intros Hno. exists st.
      destruct a0; try reflexivity.
      apply load_model_nif_too_long.
      destruct (decide (1024 <= length b)%nat); [assumption|].
      exfalso. apply Hno. exists b. split; [reflexivity | lia].
  - split.
    + intros (st' & Hrun).
      destruct (enif_get_resource st a0 MODEL_TYPE) as [obj|] eqn:Hres;
        [|left; reflexivity].
      right. intros (b & -> & Hlt).
      apply enif_get_resource_Some in Hres as (x & -> & Hx & Hty).
      destruct x as [[[m]|[q]] n]; [|discriminate].
      destruct (vosk_model_find_word (engine st) m (until_nul b))
        as [e z] eqn:Hfind.
      rewrite (find_word_nif_accepted _ _ _ _ _ _ _ Hx Hlt Hfind) in Hrun.
      discriminate Hrun.
    + intros [Hres|Hno]; exists st.
      * unfold find_word_nif. cbn [arg lookup list_lookup mbind outcome_bind].
        rewrite Hres. reflexivity.
      * destruct a1;
          try (unfold find_word_nif;
               cbn [arg lookup list_lookup mbind outcome_bind];
               destruct (enif_get_resource st a0 MODEL_TYPE); reflexivity).
        apply find_word_nif_too_long.
        destruct (decide (256 <= length b)%nat); [assumption|].
        exfalso. apply Hno. exists b. split; [reflexivity | lia].
  - split.
    + intros (st' & Hrun).
      destruct (enif_get_resource st a0 MODEL_TYPE) as [obj|] eqn:Hres;
        [|left; reflexivity].
      right. intros (d & ->).
      apply enif_get_resource_Some in Hres as (x & -> & Hx & Hty).
      destruct x as [[[m]|[q]] n]; [|discriminate].
      destruct (vosk_recognizer_new (engine st) m (float_of_double d))
        as [e r] eqn:Hnew.
      rewrite (create_recognizer_nif_accepted _ _ _ _ _ _ _ Hx Hnew) in Hrun.
      destruct (decide (r = NULL)); discriminate Hrun.
    + intros [Hres|Hno]; exists st.
      * unfold create_recognizer_nif.
        cbn [arg lookup list_lookup mbind outcome_bind].
        rewrite Hres. reflexivity.
      * apply create_recognizer_nif_not_float.
        destruct a1; try reflexivity. exfalso. apply Hno. eauto.
  - split.
    + intros (st' & Hrun).
      destruct (enif_get_resource st a0 RECOGNIZER_TYPE) as [obj|] eqn:Hres;
        [|left; reflexivity].
      right. intros (b & ->).
      apply enif_get_resource_Some in Hres as (x & -> & Hx & Hty).
      destruct x as [[[m]|[q]] n]; [discriminate|].
      destruct (vosk_recognizer_accept_waveform (engine st) q b
                  (int_of_size_t (length b))) as [e z] eqn:Hacc.
      rewrite (accept_waveform_nif_accepted _ _ _ _ _ _ _ Hx Hacc) in Hrun.
      discriminate Hrun.
    + intros [Hres|Hno]; exists st;
        unfold accept_waveform_nif;
        cbn [arg lookup list_lookup mbind outcome_bind].
      * rewrite Hres. reflexivity.
      * destruct (enif_get_resource st a0 RECOGNIZER_TYPE); [|reflexivity].
        cbn [arg lookup list_lookup mbind outcome_bind].
        destruct a1; try reflexivity. exfalso. apply Hno. eauto.
Qed.

(** X19.  The byte count [accept_waveform_nif] gives the engine.  On a
    recognizer handle and any binary, the count passed with the bytes is an
    [int], is never larger than the number of bytes behind the pointer,
    differs from that number by a multiple of 2^32, and equals it exactly
    when the number fits an [int]; the empty binary is passed on with
    count 0. *)
Theorem accept_waveform_byte_count st (obj : nat) (r : ptr) (n : nat)
  (audio : list byte) :
  heap st !! obj
  = Some {| payload := RecognizerData {| recognizer := r |}; refc := n |} ->
  exists st' z len,
    accept_waveform_nif st [Resource obj; Binary audio]
    = Done (st', Value (Integer z))
    /\ calls st' = calls st ++ [Call_recognizer_accept_waveform r audio len]
    /\ INT_MIN <= len <= INT_MAX
    /\ len <= Z.of_nat (length audio)
    /\ (Z.of_nat (length audio) - len) mod 2 ^ 32 = 0
    /\ (len = Z.of_nat (length audio) <-> Z.of_nat (length audio) <= INT_MAX)
    /\ (audio = [] -> len = 0).
Proof.
  intros Hobj.
  destruct (vosk_recognizer_accept_waveform (engine st) r audio
              (int_of_size_t (length audio))) as [e z] eqn:Hacc.
  rewrite (accept_waveform_nif_accepted _ _ _ _ _ _ _ Hobj Hacc).
  do 3 eexists. split; [reflexivity|]. split; [reflexivity|].
  pose proof (int_of_size_t_range (length audio)) as Hrange.
  apply andb_true_iff in Hrange as [Hlo Hhi].
  apply Z.leb_le in Hlo, Hhi.
  split; [lia|]. split; [apply int_of_size_t_le|].
  split; [|split].
  - unfold int_of_size_t.
    rewrite (Z.mod_eq (Z.of_nat (length audio) + 2 ^ 31) (2 ^ 32)) by lia.
    replace (Z.of_nat (length audio)
             - (Z.of_nat (length audio) + 2 ^ 31
                - 2 ^ 32 * ((Z.of_nat (length audio) + 2 ^ 31) / 2 ^ 32)
                - 2 ^ 31))
      with (((Z.of_nat (length audio) + 2 ^ 31) / 2 ^ 32) * 2 ^ 32) by lia.
    apply Z.mod_mul. lia.
  - split; [|apply int_of_size_t_id].
    intros Heq. rewrite <- Heq. exact Hhi.
  - intros ->. reflexivity.
Qed.

End Dispatch.

Lemma export_table_dispatch_witness :
  NoDup (name <$> nif_funcs (api := counting_engine))
  /\ lookup_nif (api := counting_engine) "load_model" 1 = Some load_model_entry
  /\ apply_nif (api := counting_engine) "load_model" two_handles
       [Binary ["m"%byte]]
     = Some (fptr load_model_entry two_handles [Binary ["m"%byte]])
  /\ apply_nif (api := counting_engine) "free_model" two_handles
       [Binary ["m"%byte]] = None.
Proof.
  apply (export_table_dispatch (api := counting_engine) load_model_entry
           "free_model" two_handles [Binary ["m"%byte]]).
  - apply list_elem_of_further, list_elem_of_here.
  - reflexivity.
  - intros g Hg Hname. exfalso. revert Hname. unfold nif_funcs in Hg.
    repeat (apply elem_of_cons in Hg as [->|Hg]; [discriminate|]).
    apply elem_of_nil in Hg. contradiction.
Defined.

Lemma accept_waveform_byte_count_witness :
  exists st' z len,
    accept_waveform_nif (api := counting_engine) two_handles
      [Resource 1; Binary []] = Done (st', Value (Integer z))
    /\ calls st'
       = calls two_handles ++ [Call_recognizer_accept_waveform 9 [] len]
    /\ len = 0.
Proof.
  destruct (accept_waveform_byte_count (api := counting_engine) two_handles
              1%nat 9 1%nat [] eq_refl)
    as (st' & z & len & H1 & H2 & _ & _ & _ & _ & H7).
  exists st', z, len. split; [exact H1 | split; [exact H2 | exact (H7 eq_refl)]].
Defined.
